(** * Swappable Falco engine: a shallow embedding of
      [userspace/falco/swappable_falco_engine.cpp]

    The development follows the source file top to bottom: the nested
    [config] class, [open_files], [init], [engine], [replace], [validate]
    and [create_new].  The member functions read and write the fields of
    one [swappable_falco_engine] object, so they are modelled as functions
    from the object's state to the new state and the values handed back to
    the caller (return value and [errstr] out-parameter).

    Classes that the file only uses ([sinsp], [falco_engine],
    [falco_engine::rulesfile], [falco_engine::load_result],
    [sinsp_plugin::version], [filter_check_list]) are not defined in it.
    What the file needs from them is collected in the [Collaborators]
    interface below, or modelled from the specification where a property
    depends on their behaviour. *)

From stdpp Require Import base decidable option list strings gmap.

Set Default Proof Using "Type".

Open Scope string_scope.
Open Scope list_scope.

(** ** Collaborators *)

(** The interface of the classes used, but not defined, by the source
    file.  Every operation is a pure function of the receiving object and
    its arguments; an operation that writes an out-parameter returns the
    written value next to its result. *)
Class Collaborators := {
  (** [sinsp]: the inspector a [sinsp *] points to. *)
  sinsp : Type;
  (** [filter_check_list]: the plugin filter checks. *)
  filter_check_list : Type;
  (** [falco_common::priority_type]. *)
  priority_type : Type;
  (** [sinsp_plugin::version] and its [as_string()]. *)
  plugin_version : Type;
  version_as_string : plugin_version → string;
  (** [falco_engine::rulesfile], its default constructor and
      [load(filename, errstr)]: the result, the loaded object and the new
      value of [errstr]. *)
  rulesfile : Type;
  rulesfile_new : rulesfile;
  rulesfile_load : rulesfile → string → string → bool * rulesfile * string;
  (** [falco_engine::load_result], its [successful] member and
      [as_string(include_filenames, include_warnings)]. *)
  load_result : Type;
  successful : load_result → bool;
  as_string : load_result → bool → bool → string;
  (** What an engine keeps from the rules files besides the rules
      themselves (required plugin versions and the like). *)
  loaded_state : Type;
  loaded_state_new : loaded_state;
}.

Section Engine.

Context `{Collaborators}.

(** ** Factories registered per event source *)

Inductive gen_event_filter_factory : Type :=
  | sinsp_filter_factory (inspector : sinsp) (checks : option filter_check_list)
  | json_event_filter_factory.

Inductive formatter_output_format : Type := OF_NORMAL | OF_JSON.

Inductive formatter_kind : Type :=
  | sinsp_evt_formatter_factory (inspector : sinsp) (checks : option filter_check_list)
  | json_event_formatter_factory (filter_factory : gen_event_filter_factory).

Record gen_event_formatter_factory : Type := {
  formatter_of : formatter_kind;
  formatter_output : formatter_output_format;
}.

Definition set_output_format (fmt : formatter_output_format)
    (f : gen_event_formatter_factory) : gen_event_formatter_factory :=
  {| formatter_of := formatter_of f; formatter_output := fmt |}.

(** ** The engine under construction *)

(** Modelled from the spec: the rule of a loaded rule set, missing from
    the source file.  The activation policy of the specification speaks of
    a rule's name, the tags it carries and whether it is enabled. *)
Record rule : Type := {
  rule_name : string;
  rule_tags : gset string;
  rule_enabled : bool;
}.

(** Modelled from the spec: the [falco_engine] class, missing from the
    source file.  An engine holds the global settings, the factories
    registered per source, the loaded rules and what else the loader
    keeps. *)
Record falco_engine : Type := {
  m_extra : string;
  m_replace_container_info : bool;
  m_min_priority : option priority_type;
  m_sources : gmap string (gen_event_filter_factory * gen_event_formatter_factory);
  m_rules : list rule;
  m_loaded : loaded_state;
}.

(** Modelled from the spec: [make_shared<falco_engine>()], the
    default-constructed engine, missing from the source file: no settings,
    no sources, no rules. *)
Definition falco_engine_new : falco_engine :=
  {| m_extra := ""; m_replace_container_info := false; m_min_priority := None;
     m_sources := ∅; m_rules := []; m_loaded := loaded_state_new |}.

(** Modelled from the spec: [falco_engine::set_extra], missing from the
    source file ("apply global settings: output formatting options"). *)
Definition set_extra (extra : string) (replace_container_info : bool)
    (e : falco_engine) : falco_engine :=
  {| m_extra := extra; m_replace_container_info := replace_container_info;
     m_min_priority := m_min_priority e; m_sources := m_sources e;
     m_rules := m_rules e; m_loaded := m_loaded e |}.

(** Modelled from the spec: [falco_engine::set_min_priority], missing from
    the source file ("minimum severity from config"). *)
Definition set_min_priority (p : priority_type) (e : falco_engine) : falco_engine :=
  {| m_extra := m_extra e; m_replace_container_info := m_replace_container_info e;
     m_min_priority := Some p; m_sources := m_sources e;
     m_rules := m_rules e; m_loaded := m_loaded e |}.

(** Modelled from the spec: [falco_engine::add_source], missing from the
    source file ("register it on the instance under construction"). *)
Definition add_source (source : string)
    (filter_factory : gen_event_filter_factory)
    (formatter_factory : gen_event_formatter_factory)
    (e : falco_engine) : falco_engine :=
  {| m_extra := m_extra e; m_replace_container_info := m_replace_container_info e;
     m_min_priority := m_min_priority e;
     m_sources := <[source := (filter_factory, formatter_factory)]> (m_sources e);
     m_rules := m_rules e; m_loaded := m_loaded e |}.

Definition with_rules (rs : list rule) (e : falco_engine) : falco_engine :=
  {| m_extra := m_extra e; m_replace_container_info := m_replace_container_info e;
     m_min_priority := m_min_priority e; m_sources := m_sources e;
     m_rules := rs; m_loaded := m_loaded e |}.

(** [name.find(substring) != npos]: [substring] occurs in [name].  The
    empty string occurs in every name. *)
Fixpoint contains (substring name : string) : bool :=
  String.prefix substring name ||
  match name with
  | EmptyString => false
  | String _ name' => contains substring name'
  end.

Definition set_enabled (enabled : bool) (r : rule) : rule :=
  {| rule_name := rule_name r; rule_tags := rule_tags r; rule_enabled := enabled |}.

(** Modelled from the spec: [falco_engine::enable_rule(substring, enabled)],
    missing from the source file ("disable every rule whose name contains
    that substring").  Rules whose name does not contain the substring
    keep their state. *)
Definition enable_rule (substring : string) (enabled : bool)
    (e : falco_engine) : falco_engine :=
  with_rules
    (map (λ r, if contains substring (rule_name r) then set_enabled enabled r else r)
         (m_rules e)) e.

(** A rule carries one of [tags]. *)
Definition carries_any (tags : gset string) (r : rule) : bool :=
  bool_decide (tags ∩ rule_tags r ≠ ∅).

(** Modelled from the spec: [falco_engine::enable_rule_by_tag(tags, enabled)],
    missing from the source file ("disable every rule carrying any of
    those tags", "enable every rule carrying any tag in
    [enabled_rule_tags]").  Rules carrying none of the tags keep their
    state. *)
Definition enable_rule_by_tag (tags : gset string) (enabled : bool)
    (e : falco_engine) : falco_engine :=
  with_rules
    (map (λ r, if carries_any tags r then set_enabled enabled r else r)
         (m_rules e)) e.

(** The members of [falco_engine] whose behaviour the specification leaves
    to the rule loader and to the plugin subsystem. *)
Class EngineOps := {
  (** [load_rules(rf, verbose, all_events, res)]: the engine after the
      load and the [load_result] it filled in. *)
  load_rules : falco_engine → rulesfile → bool → bool → falco_engine * load_result;
  (** [is_plugin_compatible(name, version, required_version)]: the result
      and the value written to [required_version]. *)
  is_plugin_compatible : falco_engine → string → string → bool * string;
}.

Context `{EngineOps}.

(** ** [swappable_falco_engine::config] *)

Definition syscall_source : string := "syscall".
Definition k8s_audit_source : string := "k8s_audit".

(** [sinsp_plugin::info], as far as the file reads it. *)
Record plugin_info : Type := {
  name : string;
  plugin_version_of : plugin_version;
}.

Record config : Type := {
  output_format : string;
  json_output : bool;
  verbose : bool;
  replace_container_info : bool;
  event_sources : gset string;
  min_priority : priority_type;
  plugin_infos : list plugin_info;
  disabled_rule_substrings : list string;
  disabled_rule_tags : gset string;
  enabled_rule_tags : gset string;
}.

(** [config::config()].  The initialiser list sets the three flags and the
    two built-in sources; strings and containers are default-constructed;
    [min_priority] is not initialised, so the value it happens to hold is
    an argument. *)
Definition config_new (indeterminate : priority_type) : config :=
  {| output_format := ""; json_output := false; verbose := false;
     replace_container_info := false;
     event_sources := {[ syscall_source; k8s_audit_source ]};
     min_priority := indeterminate;
     plugin_infos := []; disabled_rule_substrings := [];
     disabled_rule_tags := ∅; enabled_rule_tags := ∅ |}.

(** [config::contains_event_source]:
    [event_sources.find(source) != event_sources.end()]. *)
Definition contains_event_source (c : config) (source : string) : bool :=
  bool_decide (source ∈ event_sources c).

(** [c.event_sources.insert(source)]. *)
Definition add_event_source (source : string) (c : config) : config :=
  {| output_format := output_format c; json_output := json_output c;
     verbose := verbose c; replace_container_info := replace_container_info c;
     event_sources := {[ source ]} ∪ event_sources c;
     min_priority := min_priority c; plugin_infos := plugin_infos c;
     disabled_rule_substrings := disabled_rule_substrings c;
     disabled_rule_tags := disabled_rule_tags c;
     enabled_rule_tags := enabled_rule_tags c |}.

(** ** [swappable_falco_engine::open_files] *)

(** The [for] loop of [open_files] over the remaining file names.  Each
    round declares a local [errstr] (empty), appends a default-constructed
    [rulesfile], loads into it, and leaves the function on a failed load.
    The value [load] writes to the local [errstr] is dropped with it. *)
Fixpoint open_files_loop (filenames : list string) (rulesfiles : list rulesfile)
    : bool * list rulesfile :=
  match filenames with
  | [] => (true, rulesfiles)
  | filename :: filenames' =>
      let '(loaded, rf, _) := rulesfile_load rulesfile_new filename "" in
      let rulesfiles := rulesfiles ++ [rf] in
      if loaded then open_files_loop filenames' rulesfiles
      else (false, rulesfiles)
  end.

(** [open_files(filenames, rulesfiles, errstr)]: the result and the values
    of the two reference parameters on return.  [rulesfiles.clear()] makes
    the incoming list irrelevant; the caller's [errstr] is assigned only
    on the successful path. *)
Definition open_files (filenames : list string) (rulesfiles : list rulesfile)
    (errstr : string) : bool * list rulesfile * string :=
  let '(loaded, rulesfiles) := open_files_loop filenames [] in
  if loaded then (true, rulesfiles, "") else (false, rulesfiles, errstr).

(** ** The [swappable_falco_engine] object *)

(** The data members.  A [std::shared_ptr<falco_engine>] is an
    [option falco_engine], [None] being the null pointer: an engine is not
    changed once [create_new] has returned it, so the pointee stands for
    the instance.  The concurrent queue is the list of its elements,
    oldest first. *)
Record swappable_falco_engine : Type := {
  m_config : config;
  m_inspector : option sinsp;
  m_engine : option falco_engine;
  m_pending_falco_engine : list (option falco_engine);
  m_plugin_filter_checks : filter_check_list;
}.

(** [swappable_falco_engine::swappable_falco_engine()].  The body is
    empty: the shared pointer is null and the queue is empty; the raw
    [m_inspector] pointer and [m_config.min_priority] get no value from
    this file, so what they hold is an argument, as is the
    default-constructed [filter_check_list]. *)
Definition swappable_falco_engine_new (indeterminate_priority : priority_type)
    (indeterminate_inspector : option sinsp) (checks : filter_check_list)
    : swappable_falco_engine :=
  {| m_config := config_new indeterminate_priority;
     m_inspector := indeterminate_inspector;
     m_engine := None;
     m_pending_falco_engine := [];
     m_plugin_filter_checks := checks |}.

Inductive falco_exception : Type := FalcoException (what : string).

(** How a call ends: it returns a value or throws. *)
Inductive outcome (A : Type) : Type :=
  | Returns (a : A)
  | Throws (e : falco_exception).
Global Arguments Returns {A} a.
Global Arguments Throws {A} e.

(** ** [swappable_falco_engine::create_new] *)

(** Lines 153-183: the filter and formatter factories of one source. *)
Definition source_factories (inspector : sinsp) (checks : filter_check_list)
    (json : bool) (source : string)
    : gen_event_filter_factory * gen_event_formatter_factory :=
  let '(filter_factory, formatter_factory) :=
    if decide (source = syscall_source) then
      (sinsp_filter_factory inspector None,
       {| formatter_of := sinsp_evt_formatter_factory inspector None;
          formatter_output := OF_NORMAL |})
    else if decide (source = k8s_audit_source) then
      (json_event_filter_factory,
       {| formatter_of := json_event_formatter_factory json_event_filter_factory;
          formatter_output := OF_NORMAL |})
    else
      (sinsp_filter_factory inspector (Some checks),
       {| formatter_of := sinsp_evt_formatter_factory inspector (Some checks);
          formatter_output := OF_NORMAL |}) in
  (filter_factory,
   if json then set_output_format OF_JSON formatter_factory else formatter_factory).

(** Lines 146-186: the global settings, then one [add_source] per element
    of [m_config.event_sources].  The sources of a set are distinct and
    each is registered under its own name, so the order in which the set
    is walked does not show in the result. *)
Definition configure (cfg : config) (inspector : sinsp) (checks : filter_check_list)
    (ret : falco_engine) : falco_engine :=
  let ret := set_extra (output_format cfg) (replace_container_info cfg) ret in
  let ret := set_min_priority (min_priority cfg) ret in
  foldl (λ ret source,
           let '(filter_factory, formatter_factory) :=
             source_factories inspector checks (json_output cfg) source in
           add_source source filter_factory formatter_factory ret)
        ret (elements (event_sources cfg)).

(** Lines 200-214: one round of the loop over the rules files.  The state
    carried from round to round is the engine, the [successful] flag and
    the text written to [os] so far. *)
Definition load_round (verbose include_filenames include_warnings : bool)
    (st : falco_engine * bool * string) (rf : rulesfile)
    : falco_engine * bool * string :=
  let '(ret, all_successful, os) := st in
  let all_events := false in
  let '(ret, res) := load_rules ret rf verbose all_events in
  let os := os +:+ as_string res include_filenames include_warnings in
  (ret, if negb (successful res) then false else all_successful, os).

(** Lines 188-217: all rules files are loaded, also after a failure. *)
Definition load_all (cfg : config) (ret : falco_engine) (rulesfiles : list rulesfile)
    : falco_engine * bool * string :=
  let include_filenames := bool_decide (1 < length rulesfiles) in
  let include_warnings := verbose cfg in
  foldl (load_round (verbose cfg) include_filenames include_warnings)
        (ret, true, "") rulesfiles.

Definition plugin_incompatible_message (info : plugin_info) (required_version : string)
    : string :=
  "Plugin " +:+ name info +:+ " version "
    +:+ version_as_string (plugin_version_of info)
    +:+ " not compatible with required plugin version " +:+ required_version.

(** Lines 226-236: the first plugin that is not compatible ends the loop
    with its message; [None] when the loop runs to its end.  Each round
    starts with an empty [required_version]. *)
Fixpoint check_plugins (ret : falco_engine) (infos : list plugin_info) : option string :=
  match infos with
  | [] => None
  | info :: infos' =>
      let '(compatible, required_version) :=
        is_plugin_compatible ret (name info)
          (version_as_string (plugin_version_of info)) in
      if negb compatible then Some (plugin_incompatible_message info required_version)
      else check_plugins ret infos'
  end.

(** Lines 238-265: the enable and disable directives.  The calls to
    [falco_logger::log] write to the log only and are left out. *)
Definition activate (cfg : config) (ret : falco_engine) : falco_engine :=
  let ret :=
    foldl (λ ret substring, enable_rule substring false ret)
          ret (disabled_rule_substrings cfg) in
  let ret :=
    if bool_decide (0 < size (disabled_rule_tags cfg))
    then enable_rule_by_tag (disabled_rule_tags cfg) false ret
    else ret in
  if bool_decide (0 < size (enabled_rule_tags cfg)) then
    let all_rules := "" in
    let ret := enable_rule all_rules false ret in
    enable_rule_by_tag (enabled_rule_tags cfg) true ret
  else ret.

(** [create_new(rulesfiles, errstr)]: the pointer returned and the value
    of [errstr] on return.  The function reads the members and assigns
    none of them. *)
Definition create_new (s : swappable_falco_engine) (rulesfiles : list rulesfile)
    : option falco_engine * string :=
  let ret := falco_engine_new in
  match m_inspector s with
  | None => (None, "No inspector provided yet")
  | Some inspector =>
      let ret := configure (m_config s) inspector (m_plugin_filter_checks s) ret in
      let '(ret, all_successful, errstr) := load_all (m_config s) ret rulesfiles in
      if negb all_successful then (None, errstr)
      else
        match check_plugins ret (plugin_infos (m_config s)) with
        | Some errstr => (None, errstr)
        | None => (Some (activate (m_config s) ret), errstr)
        end
  end.

(** ** [replace], [validate], [init] and [engine] *)

(** A member function gives back the object after the call, the result
    and, where it has one, the value of the [errstr] out-parameter. *)

Definition push (new_engine : option falco_engine) (s : swappable_falco_engine)
    : swappable_falco_engine :=
  {| m_config := m_config s; m_inspector := m_inspector s; m_engine := m_engine s;
     m_pending_falco_engine := m_pending_falco_engine s ++ [new_engine];
     m_plugin_filter_checks := m_plugin_filter_checks s |}.

Definition replace (s : swappable_falco_engine) (rulesfiles : list rulesfile)
    : swappable_falco_engine * bool * string :=
  let '(new_engine, errstr) := create_new s rulesfiles in
  match new_engine with
  | None => (s, false, errstr)
  | Some _ => (push new_engine s, true, errstr)
  end.

Definition validate (s : swappable_falco_engine) (rulesfiles : list rulesfile)
    : swappable_falco_engine * bool * string :=
  let '(new_engine, errstr) := create_new s rulesfiles in
  (s, bool_decide (new_engine ≠ None), errstr).

Definition init (s : swappable_falco_engine) (cfg : config) (inspector : option sinsp)
    : swappable_falco_engine * bool * string :=
  let s :=
    {| m_config := cfg; m_inspector := inspector; m_engine := m_engine s;
       m_pending_falco_engine := m_pending_falco_engine s;
       m_plugin_filter_checks := m_plugin_filter_checks s |} in
  let empty : list rulesfile := [] in
  replace s empty.

(** [try_pop]: the oldest element and the rest of the queue, if any. *)
Definition try_pop (queue : list (option falco_engine))
    : option (option falco_engine * list (option falco_engine)) :=
  match queue with
  | [] => None
  | new_engine :: queue' => Some (new_engine, queue')
  end.

(** The [while] loop of [engine()]: the value of [m_engine] once
    [try_pop] finds the queue empty, starting from [current]. *)
Fixpoint drain (queue : list (option falco_engine)) (current : option falco_engine)
    : option falco_engine :=
  match queue with
  | [] => current
  | new_engine :: queue' => drain queue' new_engine
  end.

Definition engine (s : swappable_falco_engine)
    : swappable_falco_engine * outcome (option falco_engine) :=
  let s :=
    {| m_config := m_config s; m_inspector := m_inspector s;
       m_engine := drain (m_pending_falco_engine s) (m_engine s);
       m_pending_falco_engine := [];
       m_plugin_filter_checks := m_plugin_filter_checks s |} in
  match m_engine s with
  | None => (s, Throws (FalcoException "No engine, must call replace() first"))
  | Some _ => (s, Returns (m_engine s))
  end.

(** ** Sequences of calls *)

Inductive call : Type :=
  | call_init (cfg : config) (inspector : option sinsp)
  | call_replace (rulesfiles : list rulesfile)
  | call_validate (rulesfiles : list rulesfile)
  | call_engine.

(** What the caller sees of one call. *)
Inductive response : Type :=
  | built (succeeded : bool) (errstr : string)
  | accessed (result : outcome (option falco_engine)).

Definition perform (s : swappable_falco_engine) (c : call)
    : swappable_falco_engine * response :=
  match c with
  | call_init cfg inspector =>
      let '(s, succeeded, errstr) := init s cfg inspector in (s, built succeeded errstr)
  | call_replace rulesfiles =>
      let '(s, succeeded, errstr) := replace s rulesfiles in (s, built succeeded errstr)
  | call_validate rulesfiles =>
      let '(s, succeeded, errstr) := validate s rulesfiles in (s, built succeeded errstr)
  | call_engine =>
      let '(s, result) := engine s in (s, accessed result)
  end.

(** The object after a sequence of calls and the responses, in order. *)
Fixpoint run (s : swappable_falco_engine) (calls : list call)
    : swappable_falco_engine * list response :=
  match calls with
  | [] => (s, [])
  | c :: calls' =>
      let '(s, r) := perform s c in
      let '(s, rs) := run s calls' in
      (s, r :: rs)
  end.

(** The call enqueued a candidate: an [init] or a [replace] that
    succeeded. *)
Definition promotes (c : call) (r : response) : bool :=
  match c, r with
  | call_init _ _, built true _ => true
  | call_replace _, built true _ => true
  | _, _ => false
  end.

(** No [init] or [replace] of the sequence succeeded. *)
Definition never_succeeded (calls : list call) (rs : list response) : Prop :=
  Forall2 (λ c r, promotes c r = false) calls rs.

(** Nothing active and nothing pending. *)
Definition vacant (s : swappable_falco_engine) : Prop :=
  m_engine s = None ∧ m_pending_falco_engine s = [].

(** ** [open_files] as seen from the caller *)

(** Whether [filename] loads into a new [rulesfile], and the [rulesfile]
    the attempt leaves behind. *)
Definition loads (filename : string) : bool :=
  (rulesfile_load rulesfile_new filename "").1.1.

Definition loaded_file (filename : string) : rulesfile :=
  (rulesfile_load rulesfile_new filename "").1.2.

(** ** The build as the specification words it *)

(** The diagnostics of a build, one [load_result] per rules file in file
    order: each file is loaded into the engine left by the files before
    it, whatever their outcome. *)
Fixpoint load_trace (verbose : bool) (ret : falco_engine) (rulesfiles : list rulesfile)
    : list load_result :=
  match rulesfiles with
  | [] => []
  | rf :: rulesfiles' =>
      let '(ret, res) := load_rules ret rf verbose false in
      res :: load_trace verbose ret rulesfiles'
  end.

(** The engine once every rules file has been loaded into it. *)
Fixpoint loaded_engine (verbose : bool) (ret : falco_engine) (rulesfiles : list rulesfile)
    : falco_engine :=
  match rulesfiles with
  | [] => ret
  | rf :: rulesfiles' =>
      loaded_engine verbose (load_rules ret rf verbose false).1 rulesfiles'
  end.

(** The report: the entries of the diagnostics, concatenated in order. *)
Fixpoint report (include_filenames include_warnings : bool) (trace : list load_result)
    : string :=
  match trace with
  | [] => ""
  | res :: trace' =>
      as_string res include_filenames include_warnings
        +:+ report include_filenames include_warnings trace'
  end.

(** The engine a build loads the rules files into: a new engine with the
    settings and sources of the configuration. *)
Definition configured (s : swappable_falco_engine) (inspector : sinsp) : falco_engine :=
  configure (m_config s) inspector (m_plugin_filter_checks s) falco_engine_new.

(** The engine of a build after loading. *)
Definition build_loaded (s : swappable_falco_engine) (inspector : sinsp)
    (rulesfiles : list rulesfile) : falco_engine :=
  loaded_engine (verbose (m_config s)) (configured s inspector) rulesfiles.

(** The diagnostics of a build. *)
Definition build_trace (s : swappable_falco_engine) (inspector : sinsp)
    (rulesfiles : list rulesfile) : list load_result :=
  load_trace (verbose (m_config s)) (configured s inspector) rulesfiles.

(** A plugin of the configuration is not compatible with the engine. *)
Definition incompatible (ret : falco_engine) (info : plugin_info) : Prop :=
  (is_plugin_compatible ret (name info)
     (version_as_string (plugin_version_of info))).1 = false.

(** The version [is_plugin_compatible] reports as required. *)
Definition required_version_of (ret : falco_engine) (info : plugin_info) : string :=
  (is_plugin_compatible ret (name info)
     (version_as_string (plugin_version_of info))).2.

(** The state of one rule after the substring directives: disabled when a
    substring of the list occurs in its name. *)
Definition substrings_disabled (substrings : list string) (r : rule) : rule :=
  if existsb (λ substring, contains substring (rule_name r)) substrings
  then set_enabled false r else r.

(** The state of one rule after the directives, in closed form: the
    allow-list decides alone when it is not empty; otherwise a rule is
    disabled by a tag or a substring that matches it and keeps its state
    when none does. *)
Definition activated (cfg : config) (r : rule) : rule :=
  if bool_decide (enabled_rule_tags cfg ≠ ∅) then
    set_enabled (carries_any (enabled_rule_tags cfg) r) r
  else if carries_any (disabled_rule_tags cfg) r then set_enabled false r
  else if existsb (λ substring, contains substring (rule_name r))
                  (disabled_rule_substrings cfg)
  then set_enabled false r
  else r.

(** [n] consecutive calls of [engine()]: the object afterwards and what
    each call gave. *)
Fixpoint engine_calls (n : nat) (s : swappable_falco_engine)
    : swappable_falco_engine * list (outcome (option falco_engine)) :=
  match n with
  | 0 => (s, [])
  | S n' =>
      let '(s, r) := engine s in
      let '(s, rs) := engine_calls n' s in
      (s, r :: rs)
  end.

(** ** More of the object *)

(** [swappable_falco_engine::plugin_filter_checks()]: the member, by
    reference. *)
Definition plugin_filter_checks (s : swappable_falco_engine) : filter_check_list :=
  m_plugin_filter_checks s.

(** The object once [init] has assigned [m_config] and [m_inspector]
    (lines 75-76), before it builds. *)
Definition rebound (s : swappable_falco_engine) (cfg : config)
    (inspector : option sinsp) : swappable_falco_engine :=
  {| m_config := cfg; m_inspector := inspector; m_engine := m_engine s;
     m_pending_falco_engine := m_pending_falco_engine s;
     m_plugin_filter_checks := m_plugin_filter_checks s |}.

Definition is_init (c : call) : bool :=
  match c with
  | call_init _ _ => true
  | _ => false
  end.

(** No pending candidate is a null pointer. *)
Definition candidates_nonnull (s : swappable_falco_engine) : Prop :=
  Forall (λ candidate, candidate ≠ None) (m_pending_falco_engine s).

(** There is an engine to hand out: an active one or a pending
    candidate, none of the candidates being null. *)
Definition primed (s : swappable_falco_engine) : Prop :=
  candidates_nonnull s ∧ (m_engine s ≠ None ∨ m_pending_falco_engine s ≠ []).

(** The filter factory lines 156-178 choose for a source. *)
Definition filter_factory_of (inspector : sinsp) (checks : filter_check_list)
    (source : string) : gen_event_filter_factory :=
  if decide (source = "syscall") then sinsp_filter_factory inspector None
  else if decide (source = "k8s_audit") then json_event_filter_factory
  else sinsp_filter_factory inspector (Some checks).

(** The formatter factory lines 156-178 choose for a source. *)
Definition formatter_kind_of (inspector : sinsp) (checks : filter_check_list)
    (source : string) : formatter_kind :=
  if decide (source = "syscall") then sinsp_evt_formatter_factory inspector None
  else if decide (source = "k8s_audit")
  then json_event_formatter_factory json_event_filter_factory
  else sinsp_evt_formatter_factory inspector (Some checks).

End Engine.

(** ** A small loader for the examples *)

(** A concrete rule loader and plugin check, so that the definitions
    above can be run.  A rules file lists the rules it declares and the
    plugin versions they require; a file is malformed when flagged so, and
    a file whose name starts with [missing] cannot be opened. *)
Module Demo.

Record demo_rulesfile : Type := {
  rf_name : string;
  rf_malformed : bool;
  rf_rules : list rule;
  rf_requires : list (string * string);
}.

Record demo_load_result : Type := {
  res_name : string;
  res_successful : bool;
  res_warnings : string;
}.

Definition demo_rulesfile_new : demo_rulesfile :=
  {| rf_name := ""; rf_malformed := false; rf_rules := []; rf_requires := [] |}.

Definition demo_rulesfile_load (rf : demo_rulesfile) (filename errstr : string)
    : bool * demo_rulesfile * string :=
  if String.prefix "missing" filename
  then (false, rf, "Could not open " +:+ filename)
  else (true,
        {| rf_name := filename; rf_malformed := false; rf_rules := [];
           rf_requires := [] |},
        errstr).

Definition demo_as_string (res : demo_load_result)
    (include_filenames include_warnings : bool) : string :=
  (if include_filenames then res_name res +:+ ": " else "")
    +:+ (if res_successful res then "Ok" else "Invalid")
    +:+ (if include_warnings then res_warnings res else "")
    +:+ ";".

#[export] Instance demo_collaborators : Collaborators :=
  {| sinsp := unit;
     filter_check_list := unit;
     priority_type := nat;
     plugin_version := string;
     version_as_string := λ v, v;
     rulesfile := demo_rulesfile;
     rulesfile_new := demo_rulesfile_new;
     rulesfile_load := demo_rulesfile_load;
     load_result := demo_load_result;
     successful := res_successful;
     as_string := demo_as_string;
     loaded_state := list (string * string);
     loaded_state_new := [] |}.

Definition demo_load_rules (e : falco_engine) (rf : demo_rulesfile)
    (verbose all_events : bool) : falco_engine * demo_load_result :=
  if rf_malformed rf then
    (e, {| res_name := rf_name rf; res_successful := false; res_warnings := "" |})
  else
    ({| m_extra := m_extra e;
        m_replace_container_info := m_replace_container_info e;
        m_min_priority := m_min_priority e; m_sources := m_sources e;
        m_rules := m_rules e ++ rf_rules rf;
        m_loaded := m_loaded e ++ rf_requires rf |},
     {| res_name := rf_name rf; res_successful := true;
        res_warnings := " (warnings)" |}).

(** A plugin is compatible when the rules require nothing of it or
    exactly the version supplied. *)
Fixpoint demo_required (requires : list (string * string)) (plugin : string)
    : option string :=
  match requires with
  | [] => None
  | (p, v) :: requires' =>
      if String.eqb p plugin then Some v else demo_required requires' plugin
  end.

Definition demo_is_plugin_compatible (e : falco_engine) (plugin version : string)
    : bool * string :=
  match demo_required (m_loaded e) plugin with
  | None => (true, "")
  | Some required => if String.eqb required version then (true, "") else (false, required)
  end.

#[export] Instance demo_engine_ops : EngineOps :=
  {| load_rules := demo_load_rules;
     is_plugin_compatible := demo_is_plugin_compatible |}.

Definition demo_rule (rname : string) (tags : list string) (enabled : bool) : rule :=
  {| rule_name := rname; rule_tags := list_to_set tags; rule_enabled := enabled |}.

(** Three rules files: two well-formed ones and a malformed one. *)
Definition file_rules : demo_rulesfile :=
  {| rf_name := "file.yaml"; rf_malformed := false;
     rf_rules := [demo_rule "Write below etc" ["filesystem"] true;
                  demo_rule "Read sensitive file" ["filesystem"; "network"] true];
     rf_requires := [] |}.

Definition net_rules : demo_rulesfile :=
  {| rf_name := "net.yaml"; rf_malformed := false;
     rf_rules := [demo_rule "Outbound connection" ["network"] true;
                  demo_rule "Untagged rule" [] true];
     rf_requires := [("json", "2.0.0")] |}.

Definition bad_rules : demo_rulesfile :=
  {| rf_name := "bad.yaml"; rf_malformed := true; rf_rules := []; rf_requires := [] |}.

Definition demo_config : config := config_new 0.

Definition with_plugins (infos : list plugin_info) (c : config) : config :=
  {| output_format := output_format c; json_output := json_output c;
     verbose := verbose c; replace_container_info := replace_container_info c;
     event_sources := event_sources c; min_priority := min_priority c;
     plugin_infos := infos;
     disabled_rule_substrings := disabled_rule_substrings c;
     disabled_rule_tags := disabled_rule_tags c;
     enabled_rule_tags := enabled_rule_tags c |}.

Definition with_directives (substrings : list string) (disabled enabled : list string)
    (c : config) : config :=
  {| output_format := output_format c; json_output := json_output c;
     verbose := verbose c; replace_container_info := replace_container_info c;
     event_sources := event_sources c; min_priority := min_priority c;
     plugin_infos := plugin_infos c;
     disabled_rule_substrings := substrings;
     disabled_rule_tags := list_to_set disabled;
     enabled_rule_tags := list_to_set enabled |}.

(** A freshly constructed object without an inspector, and the same
    object once [init] has run with an inspector. *)
Definition fresh : swappable_falco_engine := swappable_falco_engine_new 0 None tt.

Definition started (cfg : config) : swappable_falco_engine :=
  (init fresh cfg (Some tt)).1.1.

(** The engine [create_new] builds on a started object, or the new engine
    when the build fails. *)
Definition built_from (cfg : config) (rulesfiles : list demo_rulesfile) : falco_engine :=
  default falco_engine_new (create_new (started cfg) rulesfiles).1.

(** A started object after two more successful calls of [replace]. *)
Definition two_replaced : swappable_falco_engine :=
  (run fresh [call_init demo_config (Some tt);
              call_replace [file_rules];
              call_replace [net_rules]]).1.

(** Calls on a fresh object, none of which can succeed without an
    inspector. *)
Definition failing_calls : list call :=
  [call_engine; call_validate []; call_replace [file_rules];
   call_init demo_config None; call_engine].

(** The [json] plugin in a version older than [net_rules] requires. *)
Definition json_1 : plugin_info := {| name := "json"; plugin_version_of := "1.0.0" |}.

Definition old_plugin : config := with_plugins [json_1] demo_config.

(** Directives of all three kinds, with [filesystem] as the allow-list. *)
Definition allow_filesystem : config :=
  with_directives ["Untagged"; "Write"] ["network"] ["filesystem"] demo_config.

Definition three_files : list demo_rulesfile := [file_rules; bad_rules; net_rules].

(** A constructed configuration after [event_sources.clear()]. *)
Definition cleared : config :=
  {| output_format := output_format demo_config; json_output := json_output demo_config;
     verbose := verbose demo_config;
     replace_container_info := replace_container_info demo_config;
     event_sources := ∅;
     min_priority := min_priority demo_config; plugin_infos := plugin_infos demo_config;
     disabled_rule_substrings := disabled_rule_substrings demo_config;
     disabled_rule_tags := disabled_rule_tags demo_config;
     enabled_rule_tags := enabled_rule_tags demo_config |}.

(** A configuration with JSON output and a plugin source. *)
Definition json_with_plugin : config :=
  {| output_format := "%evt.time"; json_output := true; verbose := false;
     replace_container_info := true;
     event_sources := {[ "syscall"; "k8s_audit"; "my_plugin" ]};
     min_priority := 3; plugin_infos := []; disabled_rule_substrings := [];
     disabled_rule_tags := ∅; enabled_rule_tags := ∅ |}.

(** Deny-lists only: no allow-list. *)
Definition deny_network : config :=
  with_directives ["Untagged"] ["network"] [] demo_config.

(** Calls after [init] that reload and access, without another [init]. *)
Definition reload_calls : list call :=
  [call_replace [file_rules]; call_engine; call_validate three_files;
   call_replace three_files; call_replace [net_rules]; call_engine].

End Demo.

(** * Properties *)

Section EngineProperties.

Context {C : Collaborators} {O : EngineOps}.

Implicit Types (s : swappable_falco_engine) (cfg : config) (ret e : falco_engine).
Implicit Types (rulesfiles : list rulesfile) (r : rule) (info : plugin_info).

(** ** Strings *)

Lemma append_cons (x : Ascii.ascii) (a b : string) :
  String x a +:+ b = String x (a +:+ b).
Proof. reflexivity. Qed.

Lemma append_empty_l (a : string) : "" +:+ a = a.
Proof. reflexivity. Qed.

Lemma append_assoc (a b c : string) : (a +:+ b) +:+ c = a +:+ (b +:+ c).
Proof. induction a as [|x a IH]; [done | by rewrite !append_cons, IH]. Qed.

Lemma append_empty_r (a : string) : a +:+ "" = a.
Proof. induction a as [|x a IH]; [done | by rewrite append_cons, IH]. Qed.

Lemma prefix_empty (name : string) : String.prefix "" name = true.
Proof. by destruct name. Qed.

Lemma prefix_spec (p name : string) :
  String.prefix p name = true ↔ ∃ rest, name = p +:+ rest.
Proof.
  revert name. induction p as [|a p IH]; intros name.
  - rewrite prefix_empty. split; [eauto | done].
  - destruct name as [|b name]; simpl.
    + split; [done | by intros [rest ?]].
    + destruct (Ascii.ascii_dec a b) as [->|Hne].
      * rewrite IH. split; intros [rest Hrest]; exists rest;
          rewrite ?append_cons in *; congruence.
      * split; [done | intros [rest Hrest]; rewrite append_cons in Hrest; congruence].
Qed.

(** [contains] is occurrence as a substring. *)
Lemma contains_spec (substring name : string) :
  contains substring name = true ↔ ∃ before rest, name = before +:+ substring +:+ rest.
Proof.
  induction name as [|a name IH].
  - change (contains substring "") with (String.prefix substring "" || false).
    rewrite orb_false_r, prefix_spec. split.
    + intros [rest Hrest]. by exists "", rest.
    + intros [before [rest Hrest]]. destruct before; [by exists rest | done].
  - change (contains substring (String a name))
      with (String.prefix substring (String a name) || contains substring name).
    rewrite orb_true_iff, IH, prefix_spec. split.
    + intros [[rest Hrest] | [before [rest Hrest]]].
      * by exists "", rest.
      * exists (String a before), rest. by rewrite append_cons, Hrest.
    + intros [before [rest Hrest]]. destruct before as [|b before].
      * left. by exists rest.
      * right. exists before, rest. rewrite append_cons in Hrest. congruence.
Qed.

Lemma contains_empty (name : string) : contains "" name = true.
Proof. destruct name; simpl; by rewrite ?prefix_empty. Qed.

(** ** The queue *)

Lemma drain_snoc (queue : list (option falco_engine)) (x current : option falco_engine) :
  drain (queue ++ [x]) current = x.
Proof. revert current. induction queue as [|y queue IH]; intros current; simpl; auto. Qed.

Lemma drain_try_pop (queue : list (option falco_engine)) (current : option falco_engine) :
  drain queue current =
    match try_pop queue with
    | None => current
    | Some (new_engine, queue') => drain queue' new_engine
    end.
Proof. by destruct queue. Qed.

(** ** The loading loop *)

Lemma load_round_eq (v inf inw : bool) ret (ok : bool) (os : string) (rf : rulesfile) :
  load_round v inf inw (ret, ok, os) rf =
    ((load_rules ret rf v false).1,
     successful (load_rules ret rf v false).2 && ok,
     os +:+ as_string (load_rules ret rf v false).2 inf inw).
Proof.
  unfold load_round. destruct (load_rules ret rf v false) as [ret' res]; simpl.
  by destruct (successful res).
Qed.

(** The loop computes the loaded engine, whether every entry of the
    diagnostics is successful, and the report appended to [os]. *)
Lemma load_loop_trace (v inf inw : bool) rulesfiles ret (ok : bool) (os : string) :
  foldl (load_round v inf inw) (ret, ok, os) rulesfiles =
    (loaded_engine v ret rulesfiles,
     forallb successful (load_trace v ret rulesfiles) && ok,
     os +:+ report inf inw (load_trace v ret rulesfiles)).
Proof.
  revert ret ok os. induction rulesfiles as [|rf rulesfiles IH]; intros ret ok os.
  - simpl. by rewrite append_empty_r.
  - cbn [foldl]. rewrite load_round_eq, IH. cbn [loaded_engine load_trace].
    destruct (load_rules ret rf v false) as [ret' res]; cbn [fst snd forallb report].
    by rewrite append_assoc, andb_assoc, (andb_comm (forallb _ _)).
Qed.

Lemma load_all_trace cfg ret rulesfiles :
  load_all cfg ret rulesfiles =
    (loaded_engine (verbose cfg) ret rulesfiles,
     forallb successful (load_trace (verbose cfg) ret rulesfiles),
     report (bool_decide (1 < length rulesfiles)) (verbose cfg)
            (load_trace (verbose cfg) ret rulesfiles)).
Proof.
  unfold load_all. rewrite load_loop_trace. by rewrite andb_true_r, append_empty_l.
Qed.

Lemma load_trace_length (v : bool) ret rulesfiles :
  length (load_trace v ret rulesfiles) = length rulesfiles.
Proof.
  revert ret. induction rulesfiles as [|rf rulesfiles IH]; intros ret; [done|].
  cbn [load_trace]. destruct (load_rules ret rf v false) as [ret' res].
  simpl. by rewrite IH.
Qed.

(** Entry [i] of the diagnostics is the result of loading file [i] into the
    engine left by the files before it. *)
Lemma load_trace_lookup (v : bool) rulesfiles ret (i : nat) (rf : rulesfile) :
  rulesfiles !! i = Some rf →
  load_trace v ret rulesfiles !! i =
    Some (load_rules (loaded_engine v ret (take i rulesfiles)) rf v false).2.
Proof.
  revert ret i. induction rulesfiles as [|rf' rulesfiles IH]; intros ret i Hi; [done|].
  cbn [load_trace]. destruct i as [|i]; simpl in Hi.
  - injection Hi as ->. cbn [take loaded_engine].
    by destruct (load_rules ret rf v false).
  - cbn [take loaded_engine].
    destruct (load_rules ret rf' v false) as [ret' res] eqn:Hload; simpl.
    by apply IH.
Qed.

Lemma forallb_successful (trace : list load_result) :
  forallb successful trace = true ↔ Forall (λ res, successful res = true) trace.
Proof.
  induction trace as [|res trace IH]; simpl.
  - split; [constructor | done].
  - rewrite andb_true_iff, IH, Forall_cons. done.
Qed.

Lemma forallb_failed (trace : list load_result) :
  forallb successful trace = false ↔ Exists (λ res, successful res = false) trace.
Proof.
  induction trace as [|res trace IH]; simpl.
  - split; [done | by intros ?%Exists_nil].
  - rewrite andb_false_iff, IH, Exists_cons. done.
Qed.

(** ** The plugin check *)

Lemma check_plugins_compatible ret (infos : list plugin_info) :
  check_plugins ret infos = None ↔ Forall (λ info, ¬ incompatible ret info) infos.
Proof.
  unfold incompatible. induction infos as [|info infos IH]; simpl.
  - split; [constructor | done].
  - rewrite Forall_cons.
    destruct (is_plugin_compatible _ _ _) as [[] required]; simpl.
    + rewrite IH. split; [by split | by intros [_ ?]].
    + split; [done | intros [Hn _]; by destruct Hn].
Qed.

(** A failed check names the first plugin of the list that is not
    compatible. *)
Lemma check_plugins_first ret (infos : list plugin_info) (errstr : string) :
  check_plugins ret infos = Some errstr →
  ∃ before info rest,
    infos = before ++ info :: rest ∧
    Forall (λ info, ¬ incompatible ret info) before ∧
    incompatible ret info ∧
    errstr = plugin_incompatible_message info (required_version_of ret info).
Proof.
  unfold incompatible, required_version_of.
  induction infos as [|info infos IH]; simpl; [done|].
  destruct (is_plugin_compatible _ _ _) as [[] required] eqn:Hc; simpl.
  - intros (before & info' & rest & -> & Hbefore & Hinfo & ->)%IH.
    exists (info :: before), info', rest. split_and!; [done | | done | done].
    constructor; [by rewrite Hc | done].
  - intros [= <-]. exists [], info, infos. rewrite Hc. by split_and!.
Qed.

Lemma check_plugins_incompatible ret (infos : list plugin_info) :
  Exists (incompatible ret) infos → is_Some (check_plugins ret infos).
Proof.
  intros Hex. destruct (check_plugins ret infos) eqn:Hcheck; [by eexists|].
  apply check_plugins_compatible in Hcheck.
  apply Exists_exists in Hex as (info & Hin & Hinfo).
  rewrite Forall_forall in Hcheck. by destruct (Hcheck info Hin).
Qed.

(** ** The activation directives *)

Lemma gset_size_pos (X : gset string) : 0 < size X ↔ X ≠ ∅.
Proof.
  rewrite <-(leibniz_equiv_iff X ∅), <-size_non_empty_iff. lia.
Qed.

Lemma carries_any_spec (tags : gset string) r :
  carries_any tags r = true ↔ ∃ tag, tag ∈ tags ∧ tag ∈ rule_tags r.
Proof.
  unfold carries_any. rewrite bool_decide_eq_true. split.
  - intros Hne. apply set_choose_L in Hne as [tag Htag]. exists tag. set_solver.
  - intros [tag [? ?]]. set_solver.
Qed.

Lemma carries_any_empty r : carries_any ∅ r = false.
Proof.
  apply not_true_is_false. rewrite carries_any_spec. intros [tag [Htag _]]. set_solver.
Qed.

Lemma disable_substrings_rules (substrings : list string) ret :
  m_rules (foldl (λ ret substring, enable_rule substring false ret) ret substrings)
    = map (substrings_disabled substrings) (m_rules ret).
Proof.
  revert ret. induction substrings as [|substring substrings IH]; intros ret.
  - simpl. symmetry. rewrite <-(map_id (m_rules ret)) at 2. by apply map_ext.
  - cbn [foldl]. rewrite IH. unfold enable_rule at 1. cbn [with_rules m_rules].
    rewrite map_map. apply map_ext. intros r.
    unfold substrings_disabled. cbn [existsb].
    destruct (contains substring (rule_name r)); cbn [orb set_enabled rule_name].
    + by destruct (existsb _ substrings).
    + done.
Qed.

Lemma activate_rules cfg ret :
  m_rules (activate cfg ret) = map (activated cfg) (m_rules ret).
Proof.
  unfold activate.
  set (ret1 := foldl _ ret (disabled_rule_substrings cfg)).
  assert (Hret1 : m_rules ret1 =
            map (substrings_disabled (disabled_rule_substrings cfg)) (m_rules ret))
    by apply disable_substrings_rules.
  set (ret2 := if bool_decide (0 < size (disabled_rule_tags cfg))
               then enable_rule_by_tag (disabled_rule_tags cfg) false ret1 else ret1).
  assert (Hret2 : m_rules ret2 =
            map (λ r, if carries_any (disabled_rule_tags cfg) r
                      then set_enabled false r else r) (m_rules ret1)).
  { unfold ret2. case_bool_decide as Hsize; [done|].
    rewrite gset_size_pos in Hsize. apply dec_stable in Hsize. rewrite Hsize.
    rewrite <-(map_id (m_rules ret1)) at 1. apply map_ext. intros r.
    by rewrite carries_any_empty. }
  clearbody ret2 ret1.
  case_bool_decide as Hsize; rewrite gset_size_pos in Hsize.
  - unfold enable_rule_by_tag, enable_rule. cbn [with_rules m_rules].
    rewrite Hret2, Hret1, !map_map. apply map_ext. intros [rname tags enabled].
    unfold activated. rewrite bool_decide_true by done.
    rewrite contains_empty.
    unfold substrings_disabled, carries_any, set_enabled; cbn [rule_name rule_tags].
    destruct (existsb _ (disabled_rule_substrings cfg));
      repeat case_bool_decide; done.
  - rewrite Hret2, Hret1, map_map. apply map_ext. intros [rname tags enabled].
    unfold activated. rewrite bool_decide_false by done.
    unfold substrings_disabled, carries_any, set_enabled; cbn [rule_name rule_tags].
    destruct (existsb _ (disabled_rule_substrings cfg));
      repeat case_bool_decide; done.
Qed.

Lemma activated_name cfg r : rule_name (activated cfg r) = rule_name r.
Proof. unfold activated. by repeat case_match. Qed.

Lemma activated_tags cfg r : rule_tags (activated cfg r) = rule_tags r.
Proof. unfold activated. by repeat case_match. Qed.

(** With an allow-list, a rule is enabled exactly when it carries one of
    the listed tags. *)
Lemma activated_allow_list cfg r :
  enabled_rule_tags cfg ≠ ∅ →
  rule_enabled (activated cfg r) = carries_any (enabled_rule_tags cfg) r.
Proof. intros Hne. unfold activated. by rewrite bool_decide_true. Qed.

(** ** [create_new], case by case *)

Lemma create_new_detached s rulesfiles :
  m_inspector s = None → create_new s rulesfiles = (None, "No inspector provided yet").
Proof. intros Hnone. unfold create_new. by rewrite Hnone. Qed.

Lemma create_new_attached s (inspector : sinsp) rulesfiles :
  m_inspector s = Some inspector →
  create_new s rulesfiles =
    let diagnostics :=
      report (bool_decide (1 < length rulesfiles)) (verbose (m_config s))
             (build_trace s inspector rulesfiles) in
    if forallb successful (build_trace s inspector rulesfiles) then
      match check_plugins (build_loaded s inspector rulesfiles)
                          (plugin_infos (m_config s)) with
      | Some errstr => (None, errstr)
      | None =>
          (Some (activate (m_config s) (build_loaded s inspector rulesfiles)),
           diagnostics)
      end
    else (None, diagnostics).
Proof.
  intros Hsome. unfold create_new. rewrite Hsome.
  fold (configured s inspector). rewrite load_all_trace.
  fold (build_trace s inspector rulesfiles) (build_loaded s inspector rulesfiles).
  cbv zeta. by destruct (forallb successful _).
Qed.

(** ** Builds that promote nothing *)

Lemma replace_failed s rulesfiles (errstr : string) :
  create_new s rulesfiles = (None, errstr) → replace s rulesfiles = (s, false, errstr).
Proof. intros Hnew. unfold replace. by rewrite Hnew. Qed.

Lemma replace_succeeded s rulesfiles e (errstr : string) :
  create_new s rulesfiles = (Some e, errstr) →
  replace s rulesfiles = (push (Some e) s, true, errstr).
Proof. intros Hnew. unfold replace. by rewrite Hnew. Qed.

Lemma create_new_load_failure s (inspector : sinsp) rulesfiles :
  m_inspector s = Some inspector →
  Exists (λ res, successful res = false) (build_trace s inspector rulesfiles) →
  create_new s rulesfiles =
    (None, report (bool_decide (1 < length rulesfiles)) (verbose (m_config s))
                  (build_trace s inspector rulesfiles)).
Proof.
  intros Hsome Hfailed%forallb_failed.
  rewrite (create_new_attached s inspector) by done. cbv zeta. by rewrite Hfailed.
Qed.

Lemma swappable_eta s :
  {| m_config := m_config s; m_inspector := m_inspector s; m_engine := m_engine s;
     m_pending_falco_engine := m_pending_falco_engine s;
     m_plugin_filter_checks := m_plugin_filter_checks s |} = s.
Proof. by destruct s. Qed.

(** Without pending candidates [engine()] changes nothing and gives the
    active engine, or throws when there is none. *)
Lemma engine_idle s :
  m_pending_falco_engine s = [] →
  engine s =
    (s, match m_engine s with
        | None => Throws (FalcoException "No engine, must call replace() first")
        | Some e => Returns (Some e)
        end).
Proof.
  intros Hpending. unfold engine. rewrite Hpending. cbn [drain m_engine].
  rewrite <-Hpending, swappable_eta. by destruct (m_engine s).
Qed.

Lemma engine_calls_idle (n : nat) s e :
  m_pending_falco_engine s = [] → m_engine s = Some e →
  engine_calls n s = (s, replicate n (Returns (Some e))).
Proof.
  intros Hpending Hengine. induction n as [|n IH]; [done|].
  cbn [engine_calls]. rewrite engine_idle, Hengine, IH by done. done.
Qed.

(** A call of [engine()] with [Some e] as the newest pending candidate. *)
Lemma engine_newest s (queue : list (option falco_engine)) e :
  m_pending_falco_engine s = queue ++ [Some e] →
  ∃ s', engine s = (s', Returns (Some e)) ∧
        m_engine s' = Some e ∧ m_pending_falco_engine s' = [] ∧
        m_config s' = m_config s ∧ m_inspector s' = m_inspector s.
Proof.
  intros Hpending. unfold engine. rewrite Hpending, drain_snoc. cbn [m_engine].
  eexists. by split_and!.
Qed.

(** ** Settings and sources leave the rules alone *)

Lemma add_sources_rules (inspector : sinsp) (checks : filter_check_list) (json : bool)
    (sources : list string) ret :
  m_rules (foldl (λ ret source,
                    let '(filter_factory, formatter_factory) :=
                      source_factories inspector checks json source in
                    add_source source filter_factory formatter_factory ret)
                 ret sources) = m_rules ret.
Proof.
  revert ret. induction sources as [|source sources IH]; intros ret; [done|].
  cbn [foldl]. rewrite IH. by destruct (source_factories _ _ _ _).
Qed.

(** Each source of the walk is registered with its own factories; the
    other entries are as before. *)
Lemma add_sources_lookup (inspector : sinsp) (checks : filter_check_list) (json : bool)
    (sources : list string) ret (source : string) :
  m_sources (foldl (λ ret source,
                      let '(filter_factory, formatter_factory) :=
                        source_factories inspector checks json source in
                      add_source source filter_factory formatter_factory ret)
                   ret sources) !! source
    = if decide (source ∈ sources)
      then Some (source_factories inspector checks json source)
      else m_sources ret !! source.
Proof.
  revert ret. induction sources as [|source' sources IH]; intros ret.
  - by rewrite decide_False by apply not_elem_of_nil.
  - cbn [foldl]. rewrite IH.
    destruct (decide (source ∈ sources)) as [Hin|Hnotin].
    + by rewrite decide_True by (by right).
    + destruct (source_factories inspector checks json source') as [ff fmt] eqn:Hf.
      cbn [add_source m_sources].
      destruct (decide (source = source')) as [->|Hne].
      * rewrite decide_True by left. by rewrite lookup_insert_eq, Hf.
      * rewrite decide_False by (by intros [?|?]%elem_of_cons).
        by rewrite lookup_insert_ne.
Qed.

(** The sources of a configured engine are those of the configuration,
    each with the factories of its kind. *)
Lemma configured_sources s (inspector : sinsp) (source : string) :
  m_sources (configured s inspector) !! source
    = if contains_event_source (m_config s) source
      then Some (source_factories inspector (m_plugin_filter_checks s)
                                  (json_output (m_config s)) source)
      else None.
Proof.
  unfold configured, configure. rewrite add_sources_lookup.
  unfold contains_event_source.
  destruct (decide (source ∈ elements (event_sources (m_config s)))) as [Hin|Hnotin].
  - rewrite bool_decide_true; [done|]. by apply elem_of_elements.
  - rewrite bool_decide_false; [done|]. by rewrite <-elem_of_elements.
Qed.

Lemma configure_rules cfg (inspector : sinsp) (checks : filter_check_list) ret :
  m_rules (configure cfg inspector checks ret) = m_rules ret.
Proof. unfold configure. by rewrite add_sources_rules. Qed.

(** An engine built from no rules files has no rules. *)
Lemma create_new_empty_rules s e (errstr : string) :
  create_new s [] = (Some e, errstr) → m_rules e = [].
Proof.
  destruct (m_inspector s) as [inspector|] eqn:Hinspector.
  - rewrite (create_new_attached s inspector) by done. cbv zeta.
    destruct (forallb _ _); [|done]. destruct (check_plugins _ _); [done|].
    intros [= <- _]. rewrite activate_rules.
    unfold build_loaded, configured. cbn [loaded_engine].
    by rewrite configure_rules.
  - by rewrite create_new_detached.
Qed.

(** ** Calls that enqueue nothing *)

Lemma perform_vacant s (c : call) :
  vacant s → promotes c (perform s c).2 = false → vacant (perform s c).1.
Proof.
  intros [Hengine Hpending]. destruct c as [cfg inspector|rulesfiles|rulesfiles|];
    cbn [perform].
  - unfold init, replace. destruct (create_new _ _) as [[e|] errstr]; [done|].
    by intros _.
  - unfold replace. destruct (create_new _ _) as [[e|] errstr]; [done|].
    by intros _.
  - unfold validate. by destruct (create_new _ _) as [new_engine errstr].
  - rewrite engine_idle by done. by rewrite Hengine.
Qed.

Lemma run_vacant (calls : list call) s :
  vacant s → never_succeeded calls (run s calls).2 → vacant (run s calls).1.
Proof.
  revert s. induction calls as [|c calls IH]; intros s Hvacant; [done|].
  cbn [run]. pose proof (perform_vacant s c Hvacant) as Hstep.
  destruct (perform s c) as [s1 r]. specialize (IH s1).
  destruct (run s1 calls) as [s2 rs]. cbn [fst snd] in *.
  intros [Hr Hrs]%Forall2_cons. auto.
Qed.

(** ** The accessor *)

(** C1: when candidates A and later B are pending, one call of [engine()]
    empties the queue, makes B the active engine and returns B; the next
    call, with nothing enqueued in between, changes nothing and returns B
    again. *)
Theorem engine_promotes_newest s (before between : list (option falco_engine))
    (a b : falco_engine) :
  m_pending_falco_engine s = before ++ Some a :: between ++ [Some b] →
  ∃ s', engine s = (s', Returns (Some b)) ∧
        m_engine s' = Some b ∧
        m_pending_falco_engine s' = [] ∧
        engine s' = (s', Returns (Some b)).
Proof.
  intros Hpending.
  destruct (engine_newest s (before ++ Some a :: between) b) as (s' & Hcall & He & Hq & _).
  { by rewrite Hpending, <-app_assoc. }
  exists s'. split_and!; [done..|].
  by rewrite engine_idle, He.
Qed.

(** C8: with no successful [init] or [replace] since construction,
    [engine()] throws; after a successful [init], which builds from no
    rules files, any number of calls return the same engine, which is not
    null and has no rules. *)
Theorem engine_needs_init (p : priority_type) (unset : option sinsp)
    (checks : filter_check_list) (calls : list call)
    s cfg (inspector : option sinsp) s1 (errstr : string) (n : nat) :
  never_succeeded calls (run (swappable_falco_engine_new p unset checks) calls).2 →
  init s cfg inspector = (s1, true, errstr) →
  (let s0 := (run (swappable_falco_engine_new p unset checks) calls).1 in
   engine s0 = (s0, Throws (FalcoException "No engine, must call replace() first")))
  ∧ (∃ e, m_rules e = [] ∧ (engine_calls n s1).2 = replicate n (Returns (Some e))).
Proof.
  intros Hnever Hinit. split.
  - cbv zeta. apply run_vacant in Hnever as [Hengine Hpending]; [|done].
    by rewrite engine_idle, Hengine.
  - unfold init, replace in Hinit.
    destruct (create_new _ _) as [[e|] errstr'] eqn:Hnew; [|done].
    injection Hinit as <- <-. exists e. split.
    { by apply create_new_empty_rules in Hnew. }
    destruct n as [|n]; [done|]. cbn [engine_calls].
    edestruct (engine_newest (push (Some e)
      {| m_config := cfg; m_inspector := inspector; m_engine := m_engine s;
         m_pending_falco_engine := m_pending_falco_engine s;
         m_plugin_filter_checks := m_plugin_filter_checks s |}))
      as (s2 & -> & He & Hq & _); [done|].
    by rewrite (engine_calls_idle n s2 e).
Qed.

(** ** [replace] and [validate] *)

(** C2: when a rules file fails to load, [replace] returns false and
    leaves the object as it was: nothing is enqueued, and [engine()] gives
    afterwards what it would have given before. *)
Theorem replace_load_failure s rulesfiles :
  (∀ inspector, m_inspector s = Some inspector →
     Exists (λ res, successful res = false) (build_trace s inspector rulesfiles)) →
  (replace s rulesfiles).1.2 = false ∧
  (replace s rulesfiles).1.1 = s ∧
  m_pending_falco_engine (replace s rulesfiles).1.1 = m_pending_falco_engine s ∧
  engine (replace s rulesfiles).1.1 = engine s.
Proof.
  intros Hfailed.
  assert (∃ errstr, create_new s rulesfiles = (None, errstr)) as [errstr Hnew].
  { destruct (m_inspector s) as [inspector|] eqn:Hinspector.
    - eexists. by apply (create_new_load_failure s inspector), Hfailed.
    - eexists. by apply create_new_detached. }
  by rewrite (replace_failed s rulesfiles errstr).
Qed.

(** C3: [validate] and [replace] run the same [create_new] on the same
    object: both report its success and its [errstr]; [validate] leaves
    the object as it was; and [replace] right after [validate] succeeds
    exactly when [validate] did. *)
Theorem validate_shares_build s rulesfiles :
  (validate s rulesfiles).1.2 = bool_decide ((create_new s rulesfiles).1 ≠ None) ∧
  (replace s rulesfiles).1.2 = bool_decide ((create_new s rulesfiles).1 ≠ None) ∧
  (validate s rulesfiles).2 = (create_new s rulesfiles).2 ∧
  (replace s rulesfiles).2 = (create_new s rulesfiles).2 ∧
  (validate s rulesfiles).1.1 = s ∧
  (replace (validate s rulesfiles).1.1 rulesfiles).1.2 = (validate s rulesfiles).1.2.
Proof.
  unfold validate, replace.
  destruct (create_new s rulesfiles) as [[e|] errstr] eqn:Hnew; cbn [fst snd];
    rewrite Hnew; by split_and!.
Qed.

(** ** The build *)

(** C7, as the code has it: without an inspector [create_new] returns
    null with the message "No inspector provided yet", whatever the
    configuration, the rules files and the loader; [replace] fails with
    that message and leaves the object as it was. *)
Theorem create_new_requires_inspector s rulesfiles :
  m_inspector s = None →
  create_new s rulesfiles = (None, "No inspector provided yet") ∧
  replace s rulesfiles = (s, false, "No inspector provided yet") ∧
  validate s rulesfiles = (s, false, "No inspector provided yet").
Proof.
  intros Hnone. pose proof (create_new_detached s rulesfiles Hnone) as Hnew.
  split_and!; [done | by apply replace_failed |].
  unfold validate. by rewrite Hnew.
Qed.

(** C5, as the code has it: with an inspector attached, every rules file
    is loaded into the engine left by the files before it, whatever their
    outcome, and gives one entry of the diagnostics; the report is the
    entries in file order, rendered with file names iff there is more than
    one file and with warnings iff [verbose] is set; the build fails with
    that report when a file failed; when none failed it fails exactly when
    a plugin is not compatible, and [errstr] is the report when it
    succeeds. *)
Theorem create_new_loads_every_file s (inspector : sinsp) rulesfiles :
  m_inspector s = Some inspector →
  let trace := build_trace s inspector rulesfiles in
  let diagnostics :=
    report (bool_decide (1 < length rulesfiles)) (verbose (m_config s)) trace in
  length trace = length rulesfiles ∧
  (∀ i rf, rulesfiles !! i = Some rf →
     trace !! i =
       Some (load_rules (build_loaded s inspector (take i rulesfiles)) rf
                        (verbose (m_config s)) false).2) ∧
  (Exists (λ res, successful res = false) trace →
     create_new s rulesfiles = (None, diagnostics)) ∧
  (Forall (λ res, successful res = true) trace →
     ((create_new s rulesfiles).1 = None ↔
        Exists (incompatible (build_loaded s inspector rulesfiles))
               (plugin_infos (m_config s))) ∧
     ((create_new s rulesfiles).1 ≠ None → (create_new s rulesfiles).2 = diagnostics)).
Proof.
  intros Hsome trace diagnostics. split_and!.
  - apply load_trace_length.
  - intros i rf Hi. by apply load_trace_lookup.
  - by apply create_new_load_failure.
  - intros Hall%forallb_successful.
    rewrite (create_new_attached s inspector) by done. cbv zeta.
    fold trace. rewrite Hall.
    destruct (check_plugins _ _) as [errstr|] eqn:Hcheck; cbn [fst snd].
    + split; [|done]. split; [intros _|done].
      apply check_plugins_first in Hcheck as (before & info & rest & -> & _ & Hinfo & _).
      apply Exists_app. right. by apply Exists_cons_hd.
    + split; [|done]. split; [done|].
      intros Hex%check_plugins_incompatible. rewrite Hcheck in Hex. by destruct Hex.
Qed.

(** C6: when every rules file loads and a plugin of the configuration is
    not compatible with the loaded rules, [create_new] returns null and
    [errstr] names the first such plugin of the list, the version supplied
    and the version required; [errstr] is that message alone; [replace]
    returns false with the same [errstr] and leaves the object as it
    was. *)
Theorem create_new_plugin_incompatible s (inspector : sinsp) rulesfiles :
  m_inspector s = Some inspector →
  Forall (λ res, successful res = true) (build_trace s inspector rulesfiles) →
  Exists (incompatible (build_loaded s inspector rulesfiles))
         (plugin_infos (m_config s)) →
  ∃ before info rest,
    plugin_infos (m_config s) = before ++ info :: rest ∧
    Forall (λ info, ¬ incompatible (build_loaded s inspector rulesfiles) info) before ∧
    incompatible (build_loaded s inspector rulesfiles) info ∧
    let errstr :=
      "Plugin " +:+ name info +:+ " version "
        +:+ version_as_string (plugin_version_of info)
        +:+ " not compatible with required plugin version "
        +:+ required_version_of (build_loaded s inspector rulesfiles) info in
    create_new s rulesfiles = (None, errstr) ∧
    replace s rulesfiles = (s, false, errstr).
Proof.
  intros Hsome Hall%forallb_successful [errstr Hcheck]%check_plugins_incompatible.
  assert (Hnew : create_new s rulesfiles = (None, errstr)).
  { rewrite (create_new_attached s inspector) by done. cbv zeta.
    by rewrite Hall, Hcheck. }
  apply check_plugins_first in Hcheck
    as (before & info & rest & Hinfos & Hbefore & Hinfo & ->).
  exists before, info, rest. split_and!; [done..|].
  cbv zeta. split; [exact Hnew | by apply replace_failed].
Qed.

(** C4: a build that succeeds applies the directives to the loaded rules
    in the order substrings, disabled tags, allow-list: each rule keeps its
    name and tags and ends in the state [activated] gives; with a
    non-empty [enabled_rule_tags], a rule of the result is enabled exactly
    when it carries one of those tags, whatever the other directives. *)
Theorem create_new_activation s (inspector : sinsp) rulesfiles e (errstr : string) :
  m_inspector s = Some inspector →
  create_new s rulesfiles = (Some e, errstr) →
  let cfg := m_config s in
  let loaded := build_loaded s inspector rulesfiles in
  e = activate cfg loaded ∧
  m_rules e = map (activated cfg) (m_rules loaded) ∧
  map rule_name (m_rules e) = map rule_name (m_rules loaded) ∧
  map rule_tags (m_rules e) = map rule_tags (m_rules loaded) ∧
  (enabled_rule_tags cfg ≠ ∅ →
     ∀ r, r ∈ m_rules e →
       (rule_enabled r = true ↔ ∃ tag, tag ∈ enabled_rule_tags cfg ∧ tag ∈ rule_tags r)).
Proof.
  intros Hsome Hnew cfg loaded.
  rewrite (create_new_attached s inspector) in Hnew by done. cbv zeta in Hnew.
  destruct (forallb _ _); [|done]. destruct (check_plugins _ _); [done|].
  injection Hnew as <- _. fold cfg loaded.
  pose proof (activate_rules cfg loaded) as Hrules. split_and!; [done..| | |].
  - rewrite Hrules, map_map. apply map_ext. intros r. apply activated_name.
  - rewrite Hrules, map_map. apply map_ext. intros r. apply activated_tags.
  - intros Hne r. rewrite Hrules. intros (r0 & <- & _)%list_elem_of_In%in_map_iff.
    by rewrite activated_allow_list, activated_tags, <-carries_any_spec.
Qed.

(** ** The configuration *)

(** C9, as the code has it: a [config] as constructed, and after any
    sources have been added to it, holds exactly the two built-in sources
    and the added ones, so [event_sources] is not empty and contains
    "syscall" and "k8s_audit" without their having been added; and for
    every [config], whatever its [event_sources],
    [contains_event_source] is membership in that set. *)
Theorem config_new_event_sources (p : priority_type) (added : list string)
    (c : config) (source : string) :
  let constructed := foldr add_event_source (config_new p) added in
  event_sources constructed = {[ "syscall"; "k8s_audit" ]} ∪ list_to_set added ∧
  event_sources constructed ≠ ∅ ∧
  "syscall" ∈ event_sources constructed ∧
  "k8s_audit" ∈ event_sources constructed ∧
  contains_event_source constructed "syscall" = true ∧
  contains_event_source constructed "k8s_audit" = true ∧
  (contains_event_source c source = true ↔ source ∈ event_sources c).
Proof.
  intros constructed.
  assert (Hsources : event_sources constructed
                     = {[ "syscall"; "k8s_audit" ]} ∪ list_to_set added).
  { unfold constructed. induction added as [|a added IH].
    - cbn [foldr config_new event_sources list_to_set].
      unfold syscall_source, k8s_audit_source. by rewrite (right_id_L ∅ (∪)).
    - cbn [foldr add_event_source event_sources list_to_set]. rewrite IH.
      apply set_eq. intros x. rewrite !elem_of_union. tauto. }
  assert (Hsys : "syscall" ∈ event_sources constructed).
  { rewrite Hsources, !elem_of_union, !elem_of_singleton. tauto. }
  assert (Hk8s : "k8s_audit" ∈ event_sources constructed).
  { rewrite Hsources, !elem_of_union, !elem_of_singleton. tauto. }
  split_and!; [done | | done | done | | |].
  - intros Hempty. rewrite Hempty in Hsys. by apply not_elem_of_empty in Hsys.
  - by apply bool_decide_eq_true.
  - by apply bool_decide_eq_true.
  - apply bool_decide_eq_true.
Qed.

(** ** [open_files] *)

(** C10: [open_files] forgets the incoming [rulesfiles] and loads the
    files in order.  When all load, it returns true with one loaded entry
    per file name, in order, and an empty [errstr].  At the first file that
    does not load it returns false: [rulesfiles] holds the entries of the
    files attempted, the failed one last, and the caller's [errstr] is as
    it was. *)
Theorem open_files_stops_at_first_failure (filenames : list string)
    rulesfiles (errstr : string) :
  (Forall (λ filename, loads filename = true) filenames →
     open_files filenames rulesfiles errstr = (true, map loaded_file filenames, ""))
  ∧ (∀ before failed rest,
       filenames = before ++ failed :: rest →
       Forall (λ filename, loads filename = true) before →
       loads failed = false →
       open_files filenames rulesfiles errstr
         = (false, map loaded_file (before ++ [failed]), errstr)).
Proof.
  assert (Hloop_ok : ∀ names acc,
            Forall (λ filename, loads filename = true) names →
            open_files_loop names acc = (true, acc ++ map loaded_file names)).
  { induction names as [|filename names IH]; intros acc Hall.
    - simpl. by rewrite app_nil_r.
    - apply Forall_cons in Hall as [Hload Hall]. cbn [open_files_loop map].
      unfold loads in Hload. unfold loaded_file at 1.
      destruct (rulesfile_load rulesfile_new filename "") as [[loaded rf] errstr'].
      cbn [fst snd] in *. subst loaded. by rewrite IH, <-app_assoc. }
  assert (Hloop_fail : ∀ before acc failed rest,
            Forall (λ filename, loads filename = true) before →
            loads failed = false →
            open_files_loop (before ++ failed :: rest) acc
              = (false, acc ++ map loaded_file (before ++ [failed]))).
  { induction before as [|filename before IH]; intros acc failed rest Hall Hfail.
    - cbn [app open_files_loop map]. unfold loads in Hfail. unfold loaded_file.
      destruct (rulesfile_load rulesfile_new failed "") as [[loaded rf] errstr'].
      cbn [fst snd] in *. by subst loaded.
    - apply Forall_cons in Hall as [Hload Hall].
      rewrite <-!app_comm_cons. cbn [open_files_loop map].
      unfold loads in Hload. unfold loaded_file at 1.
      destruct (rulesfile_load rulesfile_new filename "") as [[loaded rf] errstr'].
      cbn [fst snd] in *. subst loaded. by rewrite IH, <-app_assoc. }
  split.
  - intros Hall. unfold open_files. by rewrite Hloop_ok.
  - intros before failed rest -> Hall Hfail. unfold open_files.
    by rewrite Hloop_fail.
Qed.

End EngineProperties.

(** * Further properties of the object *)

Section ObjectProperties.

Context {C : Collaborators} {O : EngineOps}.

Implicit Types (s : swappable_falco_engine) (cfg : config) (ret e : falco_engine).
Implicit Types (rulesfiles : list rulesfile) (r : rule) (info : plugin_info).
Implicit Types (c : call) (calls : list call).

(** ** What a call leaves alone *)

Lemma create_new_frame s s' rulesfiles :
  m_config s' = m_config s → m_inspector s' = m_inspector s →
  m_plugin_filter_checks s' = m_plugin_filter_checks s →
  create_new s' rulesfiles = create_new s rulesfiles.
Proof. intros Hc Hi Hp. unfold create_new. by rewrite Hc, Hi, Hp. Qed.

Lemma perform_checks s c :
  m_plugin_filter_checks (perform s c).1 = m_plugin_filter_checks s.
Proof.
  destruct c as [cfg inspector|rulesfiles|rulesfiles|]; cbn [perform].
  - unfold init, replace. by destruct (create_new _ _) as [[e|] errstr].
  - unfold replace. by destruct (create_new _ _) as [[e|] errstr].
  - unfold validate. by destruct (create_new _ _) as [new_engine errstr].
  - unfold engine. by destruct (drain _ _).
Qed.

Lemma perform_binding s c :
  is_init c = false →
  m_config (perform s c).1 = m_config s ∧ m_inspector (perform s c).1 = m_inspector s.
Proof.
  destruct c as [cfg inspector|rulesfiles|rulesfiles|]; cbn [perform]; [done|..]; intros _.
  - unfold replace. by destruct (create_new _ _) as [[e|] errstr]; split.
  - unfold validate. by destruct (create_new _ _) as [new_engine errstr]; split.
  - unfold engine. by destruct (drain _ _); split.
Qed.

Lemma run_cons s c calls :
  run s (c :: calls) =
    ((run (perform s c).1 calls).1, (perform s c).2 :: (run (perform s c).1 calls).2).
Proof.
  cbn [run]. destruct (perform s c) as [s1 r]. cbn [fst snd].
  by destruct (run s1 calls) as [s2 rs].
Qed.

Lemma run_checks calls s :
  m_plugin_filter_checks (run s calls).1 = m_plugin_filter_checks s.
Proof.
  revert s. induction calls as [|c calls IH]; intros s; [done|].
  rewrite run_cons. cbn [fst]. by rewrite IH, perform_checks.
Qed.

(** X11: no call changes the plugin filter checks that
    [plugin_filter_checks()] hands out. *)
Theorem plugin_filter_checks_kept calls s :
  plugin_filter_checks (run s calls).1 = plugin_filter_checks s.
Proof. apply run_checks. Qed.

(** X8: calls other than [init] leave the configuration and the inspector
    as they were, and a build gives afterwards what it would have given
    before: what is active or pending has no part in it. *)
Theorem build_outcome_kept calls s rulesfiles :
  Forall (λ c, is_init c = false) calls →
  m_config (run s calls).1 = m_config s ∧
  m_inspector (run s calls).1 = m_inspector s ∧
  create_new (run s calls).1 rulesfiles = create_new s rulesfiles ∧
  (validate (run s calls).1 rulesfiles).1.2 = (validate s rulesfiles).1.2.
Proof.
  intros Hcalls.
  assert (m_config (run s calls).1 = m_config s ∧
          m_inspector (run s calls).1 = m_inspector s) as [Hc Hi].
  { revert s. induction Hcalls as [|c calls Hc _ IH]; intros s; [done|].
    rewrite run_cons. cbn [fst].
    destruct (IH (perform s c).1) as [-> ->]. by apply perform_binding. }
  assert (Hnew : create_new (run s calls).1 rulesfiles = create_new s rulesfiles).
  { apply create_new_frame; [done..|]. apply run_checks. }
  split_and!; [done..|]. unfold validate. rewrite Hnew.
  by destruct (create_new s rulesfiles).
Qed.

(** ** The accessor, once more *)

Lemma engine_pending s : m_pending_falco_engine (engine s).1 = [].
Proof. unfold engine. cbn [m_engine]. by destruct (drain _ _). Qed.

Lemma engine_active s :
  m_engine (engine s).1 = drain (m_pending_falco_engine s) (m_engine s).
Proof. unfold engine. cbn [m_engine]. by destruct (drain _ _). Qed.

Lemma engine_outcome s :
  (engine s).2 =
    match m_engine (engine s).1 with
    | None => Throws (FalcoException "No engine, must call replace() first")
    | Some e => Returns (Some e)
    end.
Proof. unfold engine. cbn [m_engine]. by destruct (drain _ _). Qed.

(** X6: a second call of [engine()] right after the first changes nothing
    and ends the same way, whether the first returned or threw. *)
Theorem engine_twice s :
  engine (engine s).1 = ((engine s).1, (engine s).2).
Proof. by rewrite engine_idle, engine_outcome by apply engine_pending. Qed.

(** X5: after [replace] has succeeded, the next call of [engine()] returns
    the engine that [replace] built, whatever was active or pending
    before, and leaves it active with an empty queue. *)
Theorem replace_then_engine s rulesfiles s' (errstr : string) :
  replace s rulesfiles = (s', true, errstr) →
  ∃ e s'',
    create_new s rulesfiles = (Some e, errstr) ∧
    m_pending_falco_engine s' = m_pending_falco_engine s ++ [Some e] ∧
    m_engine s' = m_engine s ∧
    engine s' = (s'', Returns (Some e)) ∧
    m_engine s'' = Some e ∧
    m_pending_falco_engine s'' = [].
Proof.
  unfold replace. destruct (create_new s rulesfiles) as [[e|] errstr'] eqn:Hnew; [|done].
  intros [= <- <-].
  destruct (engine_newest (push (Some e) s) (m_pending_falco_engine s) e)
    as (s'' & Hcall & He & Hq & _); [done|].
  exists e, s''. by split_and!.
Qed.

(** ** From construction on *)

Lemma perform_engine s :
  perform s call_engine = ((engine s).1, accessed (engine s).2).
Proof. cbn [perform]. by destruct (engine s). Qed.

Lemma drain_nonnull (queue : list (option falco_engine)) (current : option falco_engine) :
  Forall (λ candidate, candidate ≠ None) queue →
  current ≠ None ∨ queue ≠ [] →
  drain queue current ≠ None.
Proof.
  intros Hqueue. revert current.
  induction Hqueue as [|candidate queue Hcandidate _ IH]; intros current.
  - by intros [?|?].
  - intros _. cbn [drain]. apply IH. by left.
Qed.

Lemma perform_candidates s c :
  candidates_nonnull s → candidates_nonnull (perform s c).1.
Proof.
  unfold candidates_nonnull. intros Hs.
  destruct c as [cfg inspector|rulesfiles|rulesfiles|];
    [cbn [perform]..|rewrite perform_engine].
  - unfold init, replace. destruct (create_new _ _) as [[e|] errstr]; [|done].
    cbn [fst push m_pending_falco_engine]. apply Forall_app. split; [done|].
    by repeat constructor.
  - unfold replace. destruct (create_new _ _) as [[e|] errstr]; [|done].
    cbn [fst push m_pending_falco_engine]. apply Forall_app. split; [done|].
    by repeat constructor.
  - unfold validate. by destruct (create_new _ _) as [new_engine errstr].
  - cbn [fst]. rewrite engine_pending. constructor.
Qed.

Lemma perform_primed s c : primed s → primed (perform s c).1.
Proof.
  intros [Hqueue Hsome]. split; [by apply perform_candidates|].
  destruct c as [cfg inspector|rulesfiles|rulesfiles|];
    [cbn [perform]..|rewrite perform_engine].
  - unfold init, replace. destruct (create_new _ _) as [[e|] errstr]; cbn [fst].
    + right. cbn [push m_pending_falco_engine]. by destruct (m_pending_falco_engine s).
    + done.
  - unfold replace. destruct (create_new _ _) as [[e|] errstr]; cbn [fst].
    + right. cbn [push m_pending_falco_engine]. by destruct (m_pending_falco_engine s).
    + done.
  - unfold validate. by destruct (create_new _ _) as [new_engine errstr].
  - left. cbn [fst]. rewrite engine_active.
    by apply drain_nonnull.
Qed.

Lemma perform_promotes s c :
  candidates_nonnull s → promotes c (perform s c).2 = true → primed (perform s c).1.
Proof.
  intros Hqueue Hpromotes. split; [by apply perform_candidates|]. right.
  destruct c as [cfg inspector|rulesfiles|rulesfiles|]; cbn [perform] in *.
  - unfold init, replace in *. destruct (create_new _ _) as [[e|] errstr]; [|done].
    cbn [fst push m_pending_falco_engine]. by destruct (m_pending_falco_engine s).
  - unfold replace in *. destruct (create_new _ _) as [[e|] errstr]; [|done].
    cbn [fst push m_pending_falco_engine]. by destruct (m_pending_falco_engine s).
  - unfold validate in *. by destruct (create_new _ _) as [new_engine errstr].
  - by destruct (engine s).
Qed.

Lemma run_primed calls s : primed s → primed (run s calls).1.
Proof.
  revert s. induction calls as [|c calls IH]; intros s Hs; [done|].
  rewrite run_cons. cbn [fst]. by apply IH, perform_primed.
Qed.

Lemma run_candidates calls s : candidates_nonnull s → candidates_nonnull (run s calls).1.
Proof.
  revert s. induction calls as [|c calls IH]; intros s Hs; [done|].
  rewrite run_cons. cbn [fst]. by apply IH, perform_candidates.
Qed.

(** From a vacant object, a sequence of calls either enqueued nothing and
    left the object vacant, or enqueued something and left it primed. *)
Lemma run_vacant_or_primed calls s :
  vacant s →
  (never_succeeded calls (run s calls).2 ∧ vacant (run s calls).1)
  ∨ (¬ never_succeeded calls (run s calls).2 ∧ primed (run s calls).1).
Proof.
  revert s. induction calls as [|c calls IH]; intros s Hvacant.
  - left. split; [constructor|done].
  - rewrite run_cons. cbn [fst snd].
    destruct (promotes c (perform s c).2) eqn:Hpromotes.
    + right. split.
      * intros [Hhead _]%Forall2_cons. congruence.
      * apply run_primed, perform_promotes; [|done].
        destruct Hvacant as [_ Hq]. unfold candidates_nonnull. rewrite Hq. constructor.
    + destruct (IH (perform s c).1) as [[Hnever Hv]|[Hsome Hp]].
      * by apply perform_vacant.
      * left. split; [by apply Forall2_cons|done].
      * right. split; [|done]. by intros [_ Htail]%Forall2_cons.
Qed.

Lemma engine_primed s : primed s → ∃ e, (engine s).2 = Returns (Some e).
Proof.
  intros [Hqueue Hsome]. rewrite engine_outcome, engine_active.
  pose proof (drain_nonnull _ _ Hqueue Hsome) as Hdrain.
  destruct (drain _ _) as [e|]; [by exists e|done].
Qed.

(** X7: on an object used from its construction on, [engine()] throws
    exactly when no [init] and no [replace] has succeeded so far; once one
    has, no later call, failed or not, makes [engine()] throw again. *)
Theorem engine_throws_iff_never_succeeded (p : priority_type) (unset : option sinsp)
    (checks : filter_check_list) calls :
  (engine (run (swappable_falco_engine_new p unset checks) calls).1).2
    = Throws (FalcoException "No engine, must call replace() first")
  ↔ never_succeeded calls (run (swappable_falco_engine_new p unset checks) calls).2.
Proof.
  destruct (run_vacant_or_primed calls (swappable_falco_engine_new p unset checks))
    as [[Hnever [He Hq]]|[Hsome Hprimed]]; [done|..].
  - split; [done|]. intros _. by rewrite engine_idle, He.
  - split; [|done]. apply engine_primed in Hprimed as [e He]. by rewrite He.
Qed.

(** X10: on an object used from its construction on, the queue never
    holds a null pointer, whatever calls were made and however they
    ended. *)
Theorem queue_never_holds_null (p : priority_type) (unset : option sinsp)
    (checks : filter_check_list) calls :
  Forall (λ candidate, candidate ≠ None)
         (m_pending_falco_engine (run (swappable_falco_engine_new p unset checks) calls).1).
Proof. apply (run_candidates calls). constructor. Qed.

(** ** When a build succeeds *)

Lemma create_new_succeeds s rulesfiles :
  (create_new s rulesfiles).1 ≠ None ↔
  ∃ inspector,
    m_inspector s = Some inspector ∧
    Forall (λ res, successful res = true) (build_trace s inspector rulesfiles) ∧
    Forall (λ info, ¬ incompatible (build_loaded s inspector rulesfiles) info)
           (plugin_infos (m_config s)).
Proof.
  destruct (m_inspector s) as [inspector|] eqn:Hinspector.
  - rewrite (create_new_attached s inspector) by done. cbv zeta.
    destruct (forallb successful _) eqn:Hall.
    + destruct (check_plugins _ _) as [errstr|] eqn:Hcheck; cbn [fst snd].
      * split; [done|]. intros (i & [= <-] & _ & Hcompatible).
        apply check_plugins_compatible in Hcompatible. congruence.
      * split; [intros _|done]. exists inspector. split_and!; [done| |].
        -- by apply forallb_successful.
        -- by apply check_plugins_compatible.
    + cbn [fst snd]. split; [done|]. intros (i & [= <-] & Hloaded & _).
      apply forallb_successful in Hloaded. congruence.
  - rewrite create_new_detached by done. cbn [fst snd].
    split; [done|]. by intros (i & ? & _).
Qed.

Lemma replace_result s rulesfiles :
  (replace s rulesfiles).1.2 = true ↔ (create_new s rulesfiles).1 ≠ None.
Proof. unfold replace. by destruct (create_new s rulesfiles) as [[e|] errstr]. Qed.

(** X2: [replace] succeeds exactly when an inspector is attached, every
    rules file loads and every plugin of the configuration is compatible
    with the loaded rules. *)
Theorem replace_succeeds_iff s rulesfiles :
  (replace s rulesfiles).1.2 = true ↔
  ∃ inspector,
    m_inspector s = Some inspector ∧
    Forall (λ res, successful res = true) (build_trace s inspector rulesfiles) ∧
    Forall (λ info, ¬ incompatible (build_loaded s inspector rulesfiles) info)
           (plugin_infos (m_config s)).
Proof. by rewrite replace_result, create_new_succeeds. Qed.

Lemma init_rebound s cfg (inspector : option sinsp) :
  init s cfg inspector = replace (rebound s cfg inspector) [].
Proof. reflexivity. Qed.

(** X3: [init] stores the configuration and the inspector whether or not
    it succeeds, and leaves the active engine alone.  It succeeds exactly
    when the inspector is not null and every plugin of the configuration
    is compatible with an engine that has no rules; it then enqueues one
    rule-less engine and gives an empty [errstr]; otherwise it enqueues
    nothing. *)
Theorem init_outcome s cfg (inspector : option sinsp) :
  m_config (init s cfg inspector).1.1 = cfg ∧
  m_inspector (init s cfg inspector).1.1 = inspector ∧
  m_engine (init s cfg inspector).1.1 = m_engine s ∧
  ((init s cfg inspector).1.2 = true ↔
     ∃ i, inspector = Some i ∧
          Forall (λ info, ¬ incompatible
                              (configure cfg i (m_plugin_filter_checks s) falco_engine_new)
                              info)
                 (plugin_infos cfg)) ∧
  ((init s cfg inspector).1.2 = true →
     (init s cfg inspector).2 = "" ∧
     ∃ e, m_rules e = [] ∧
          m_pending_falco_engine (init s cfg inspector).1.1
            = m_pending_falco_engine s ++ [Some e]) ∧
  ((init s cfg inspector).1.2 = false →
     m_pending_falco_engine (init s cfg inspector).1.1 = m_pending_falco_engine s).
Proof.
  split_and!.
  - rewrite init_rebound. unfold replace. by destruct (create_new _ _) as [[e|] errstr].
  - rewrite init_rebound. unfold replace. by destruct (create_new _ _) as [[e|] errstr].
  - rewrite init_rebound. unfold replace. by destruct (create_new _ _) as [[e|] errstr].
  - rewrite init_rebound, replace_result, create_new_succeeds.
    cbn [rebound m_inspector m_config].
    split.
    + intros (i & -> & _ & Hcompatible). by exists i.
    + intros (i & -> & Hcompatible). exists i. split_and!; [done|constructor|done].
  - rewrite init_rebound. unfold replace.
    destruct (create_new _ _) as [[e|] errstr] eqn:Hnew; [|done]. intros _.
    cbn [fst snd]. split.
    + destruct inspector as [i|].
      * rewrite (create_new_attached _ i) in Hnew by done. cbv zeta in Hnew.
        cbn [build_trace load_trace forallb report] in Hnew.
        destruct (check_plugins _ _); [done|]. by injection Hnew as _ <-.
      * by rewrite create_new_detached in Hnew.
    + exists e. split; [by apply create_new_empty_rules in Hnew|done].
  - rewrite init_rebound. unfold replace.
    by destruct (create_new _ _) as [[e|] errstr].
Qed.

(** X4: [init] with a null inspector fails with "No inspector provided
    yet", yet it has stored the configuration and the null inspector:
    every later [replace] fails with that message, while [engine()] ends
    as it would have without the [init]. *)
Theorem init_without_inspector s cfg rulesfiles :
  init s cfg None = (rebound s cfg None, false, "No inspector provided yet") ∧
  replace (init s cfg None).1.1 rulesfiles
    = ((init s cfg None).1.1, false, "No inspector provided yet") ∧
  (engine (init s cfg None).1.1).2 = (engine s).2.
Proof.
  assert (Hinit : init s cfg None
                  = (rebound s cfg None, false, "No inspector provided yet")).
  { rewrite init_rebound. by apply replace_failed, create_new_detached. }
  rewrite Hinit. cbn [fst]. split_and!; [done| |].
  - by apply replace_failed, create_new_detached.
  - by rewrite !engine_outcome, !engine_active.
Qed.

(** ** The sources of a new engine *)

Lemma disable_substrings_sources (substrings : list string) ret :
  m_sources (foldl (λ ret substring, enable_rule substring false ret) ret substrings)
    = m_sources ret.
Proof.
  revert ret. induction substrings as [|substring substrings IH]; intros ret; [done|].
  cbn [foldl]. by rewrite IH.
Qed.

Lemma activate_sources cfg ret : m_sources (activate cfg ret) = m_sources ret.
Proof.
  unfold activate. repeat case_bool_decide; cbn [enable_rule_by_tag enable_rule
    with_rules m_sources]; by rewrite disable_substrings_sources.
Qed.

(** X1: an engine built from no rules files, as [init] builds it, has
    exactly the sources of the configuration registered: "syscall" with
    the inspector's factories, "k8s_audit" with the JSON factories, any
    other source with the inspector's factories and the plugin filter
    checks; with [json_output] set, every formatter factory is switched to
    JSON output. *)
Theorem new_engine_sources s (inspector : sinsp) e (errstr : string) (source : string) :
  m_inspector s = Some inspector →
  create_new s [] = (Some e, errstr) →
  (source ∉ event_sources (m_config s) → m_sources e !! source = None) ∧
  (source ∈ event_sources (m_config s) →
     ∃ formatter_factory,
       m_sources e !! source
         = Some (filter_factory_of inspector (m_plugin_filter_checks s) source,
                 formatter_factory) ∧
       formatter_of formatter_factory
         = formatter_kind_of inspector (m_plugin_filter_checks s) source ∧
       (json_output (m_config s) = true → formatter_output formatter_factory = OF_JSON)).
Proof.
  intros Hsome Hnew.
  rewrite (create_new_attached s inspector) in Hnew by done. cbv zeta in Hnew.
  destruct (forallb _ _); [|done]. destruct (check_plugins _ _); [done|].
  injection Hnew as <- _. rewrite activate_sources.
  unfold build_loaded. cbn [loaded_engine]. rewrite configured_sources.
  unfold contains_event_source. split; intros Hsource.
  - by rewrite bool_decide_false.
  - rewrite bool_decide_true by done.
    unfold source_factories, filter_factory_of, formatter_kind_of,
      syscall_source, k8s_audit_source.
    repeat case_decide; destruct (json_output (m_config s)); eexists; by split_and!.
Qed.

(** ** Deny-lists *)

(** X9: in a build that succeeds with an empty [enabled_rule_tags], a
    rule is enabled exactly when the loader left it enabled, it carries
    none of [disabled_rule_tags], and no string of
    [disabled_rule_substrings] occurs in its name. *)
Theorem create_new_deny_lists s (inspector : sinsp) rulesfiles e (errstr : string) :
  m_inspector s = Some inspector →
  create_new s rulesfiles = (Some e, errstr) →
  enabled_rule_tags (m_config s) = ∅ →
  map rule_enabled (m_rules e)
    = map (λ r, rule_enabled r
                && negb (carries_any (disabled_rule_tags (m_config s)) r)
                && negb (existsb (λ substring, contains substring (rule_name r))
                                 (disabled_rule_substrings (m_config s))))
          (m_rules (build_loaded s inspector rulesfiles)).
Proof.
  intros Hsome Hnew Hempty.
  rewrite (create_new_attached s inspector) in Hnew by done. cbv zeta in Hnew.
  destruct (forallb _ _); [|done]. destruct (check_plugins _ _); [done|].
  injection Hnew as <- _. rewrite activate_rules, map_map. apply map_ext. intros r.
  unfold activated. rewrite bool_decide_false by (by intros ?).
  destruct (carries_any _ r); cbn [negb set_enabled rule_enabled].
  - by rewrite andb_false_r.
  - destruct (existsb _ _); cbn [negb set_enabled rule_enabled].
    + by rewrite andb_false_r.
    + by rewrite !andb_true_r.
Qed.

End ObjectProperties.

(** * The properties on the example loader *)

Import Demo.

(** ** Runs of the code *)

Example demo_report_names_every_file :
  create_new (started demo_config) three_files
    = (None, "file.yaml: Ok;bad.yaml: Invalid;net.yaml: Ok;").
Proof. vm_compute. reflexivity. Qed.

Example demo_report_single_file :
  (create_new (started demo_config) [bad_rules]).2 = "Invalid;".
Proof. vm_compute. reflexivity. Qed.

Example demo_plugin_message :
  create_new (started old_plugin) [file_rules; net_rules]
    = (None, "Plugin json version 1.0.0 not compatible with required plugin version 2.0.0").
Proof. vm_compute. reflexivity. Qed.

Example demo_allow_list :
  map (λ r, (rule_name r, rule_enabled r))
      (m_rules (built_from allow_filesystem [file_rules; net_rules]))
    = [("Write below etc", true); ("Read sensitive file", true);
       ("Outbound connection", false); ("Untagged rule", false)].
Proof. vm_compute. reflexivity. Qed.

Example demo_open_files :
  open_files ["a.yaml"; "missing.yaml"; "b.yaml"] [bad_rules] "unchanged"
    = (false, [loaded_file "a.yaml"; loaded_file "missing.yaml"], "unchanged").
Proof. vm_compute. reflexivity. Qed.

Example demo_open_files_all :
  open_files ["a.yaml"; "b.yaml"] [bad_rules] "unchanged"
    = (true, [loaded_file "a.yaml"; loaded_file "b.yaml"], "").
Proof. vm_compute. reflexivity. Qed.

Example demo_engine_before_init :
  (engine fresh).2 = Throws (FalcoException "No engine, must call replace() first").
Proof. reflexivity. Qed.

(** ** The theorems at concrete inputs *)

Lemma engine_promotes_newest_demo :
  m_pending_falco_engine two_replaced
    = [Some (built_from demo_config [])]
        ++ Some (built_from demo_config [file_rules])
        :: [] ++ [Some (built_from demo_config [net_rules])]
  ∧ ∃ s', engine two_replaced = (s', Returns (Some (built_from demo_config [net_rules]))) ∧
          m_engine s' = Some (built_from demo_config [net_rules]) ∧
          m_pending_falco_engine s' = [] ∧
          engine s' = (s', Returns (Some (built_from demo_config [net_rules]))).
Proof.
  split; [vm_compute; reflexivity|].
  apply (engine_promotes_newest two_replaced
           [Some (built_from demo_config [])] []
           (built_from demo_config [file_rules]) (built_from demo_config [net_rules])).
  vm_compute. reflexivity.
Defined.

Lemma engine_needs_init_demo :
  never_succeeded failing_calls (run (swappable_falco_engine_new 0 None tt) failing_calls).2
  ∧ init fresh demo_config (Some tt) = (started demo_config, true, "")
  ∧ (let s0 := (run (swappable_falco_engine_new 0 None tt) failing_calls).1 in
     engine s0 = (s0, Throws (FalcoException "No engine, must call replace() first")))
  ∧ (∃ e, m_rules e = [] ∧
          (engine_calls 3 (started demo_config)).2 = replicate 3 (Returns (Some e))).
Proof.
  assert (Hnever : never_succeeded failing_calls
                     (run (swappable_falco_engine_new 0 None tt) failing_calls).2)
    by (vm_compute; repeat constructor).
  assert (Hinit : init fresh demo_config (Some tt) = (started demo_config, true, ""))
    by (vm_compute; reflexivity).
  split; [exact Hnever|]. split; [exact Hinit|].
  exact (engine_needs_init 0 None tt failing_calls fresh demo_config (Some tt)
           (started demo_config) "" 3 Hnever Hinit).
Defined.

Lemma replace_load_failure_demo :
  (∀ inspector, m_inspector (started demo_config) = Some inspector →
     Exists (λ res, successful res = false)
            (build_trace (started demo_config) inspector three_files))
  ∧ (replace (started demo_config) three_files).1.2 = false
  ∧ (replace (started demo_config) three_files).1.1 = started demo_config
  ∧ m_pending_falco_engine (replace (started demo_config) three_files).1.1
      = m_pending_falco_engine (started demo_config)
  ∧ engine (replace (started demo_config) three_files).1.1 = engine (started demo_config).
Proof.
  assert (Hfailed : ∀ inspector, m_inspector (started demo_config) = Some inspector →
            Exists (λ res, successful res = false)
                   (build_trace (started demo_config) inspector three_files)).
  { intros [] _. apply Exists_cons_tl, Exists_cons_hd. vm_compute. reflexivity. }
  split; [exact Hfailed|].
  exact (replace_load_failure (started demo_config) three_files Hfailed).
Defined.

Lemma create_new_requires_inspector_demo :
  m_inspector fresh = None
  ∧ create_new fresh three_files = (None, "No inspector provided yet")
  ∧ replace fresh three_files = (fresh, false, "No inspector provided yet")
  ∧ validate fresh three_files = (fresh, false, "No inspector provided yet").
Proof.
  split; [reflexivity|].
  exact (create_new_requires_inspector fresh three_files eq_refl).
Defined.

(** C7 as stated fails: the message of the code is not the one the
    statement quotes. *)
Lemma create_new_message_differs :
  ¬ (m_inspector fresh = None →
     create_new fresh three_files = (None, "No inspector/source provided yet")).
Proof. intros Hstated. specialize (Hstated eq_refl). vm_compute in Hstated. discriminate. Qed.

Lemma create_new_loads_every_file_demo :
  m_inspector (started demo_config) = Some tt
  ∧ let trace := build_trace (started demo_config) tt three_files in
    let diagnostics := report true false trace in
    length trace = 3 ∧
    diagnostics = "file.yaml: Ok;bad.yaml: Invalid;net.yaml: Ok;" ∧
    create_new (started demo_config) three_files = (None, diagnostics).
Proof.
  split; [reflexivity|]. cbv zeta.
  destruct (create_new_loads_every_file (started demo_config) tt three_files eq_refl)
    as (Hlength & _ & Hfail & _).
  split; [exact Hlength|]. split; [vm_compute; reflexivity|].
  apply Hfail. apply Exists_cons_tl, Exists_cons_hd. vm_compute. reflexivity.
Defined.

(** C5 as stated fails: a build can fail although every rules file
    loaded, here on a plugin that is not compatible; and a build without
    an inspector loads no file, so that its [errstr] is not the report of
    the files. *)
Lemma create_new_fails_without_failed_file :
  ¬ ((create_new (started old_plugin) [file_rules; net_rules]).1 = None ↔
     Exists (λ res, successful res = false)
            (build_trace (started old_plugin) tt [file_rules; net_rules]))
  ∧ ¬ ((create_new fresh three_files).2
         = report true false (build_trace fresh tt three_files)).
Proof.
  split.
  - intros [Hfails _].
    assert (Hnone : (create_new (started old_plugin) [file_rules; net_rules]).1 = None)
      by (vm_compute; reflexivity).
    apply Hfails, forallb_failed in Hnone. vm_compute in Hnone. discriminate.
  - vm_compute. discriminate.
Qed.

Lemma create_new_plugin_incompatible_demo :
  m_inspector (started old_plugin) = Some tt
  ∧ Forall (λ res, successful res = true)
           (build_trace (started old_plugin) tt [file_rules; net_rules])
  ∧ Exists (incompatible (build_loaded (started old_plugin) tt [file_rules; net_rules]))
           (plugin_infos (m_config (started old_plugin)))
  ∧ ∃ before info rest,
      plugin_infos (m_config (started old_plugin)) = before ++ info :: rest ∧
      Forall (λ info, ¬ incompatible
                          (build_loaded (started old_plugin) tt [file_rules; net_rules])
                          info) before ∧
      incompatible (build_loaded (started old_plugin) tt [file_rules; net_rules]) info ∧
      let errstr :=
        "Plugin " +:+ name info +:+ " version "
          +:+ version_as_string (plugin_version_of info)
          +:+ " not compatible with required plugin version "
          +:+ required_version_of
                (build_loaded (started old_plugin) tt [file_rules; net_rules]) info in
      create_new (started old_plugin) [file_rules; net_rules] = (None, errstr) ∧
      replace (started old_plugin) [file_rules; net_rules]
        = (started old_plugin, false, errstr).
Proof.
  assert (Hall : Forall (λ res, successful res = true)
                   (build_trace (started old_plugin) tt [file_rules; net_rules]))
    by (apply forallb_successful; vm_compute; reflexivity).
  assert (Hex : Exists (incompatible (build_loaded (started old_plugin) tt
                                        [file_rules; net_rules]))
                  (plugin_infos (m_config (started old_plugin))))
    by (apply Exists_cons_hd; vm_compute; reflexivity).
  split; [reflexivity|]. split; [exact Hall|]. split; [exact Hex|].
  exact (create_new_plugin_incompatible (started old_plugin) tt
           [file_rules; net_rules] eq_refl Hall Hex).
Defined.

Lemma create_new_activation_demo :
  m_inspector (started allow_filesystem) = Some tt
  ∧ create_new (started allow_filesystem) [file_rules; net_rules]
      = (Some (built_from allow_filesystem [file_rules; net_rules]), "file.yaml: Ok;net.yaml: Ok;")
  ∧ let e := built_from allow_filesystem [file_rules; net_rules] in
    let cfg := m_config (started allow_filesystem) in
    let loaded := build_loaded (started allow_filesystem) tt [file_rules; net_rules] in
    e = activate cfg loaded ∧
    m_rules e = map (activated cfg) (m_rules loaded) ∧
    map rule_name (m_rules e) = map rule_name (m_rules loaded) ∧
    map rule_tags (m_rules e) = map rule_tags (m_rules loaded) ∧
    (enabled_rule_tags cfg ≠ ∅ →
       ∀ r, r ∈ m_rules e →
         (rule_enabled r = true ↔ ∃ tag, tag ∈ enabled_rule_tags cfg ∧ tag ∈ rule_tags r)).
Proof.
  assert (Hnew : create_new (started allow_filesystem) [file_rules; net_rules]
                 = (Some (built_from allow_filesystem [file_rules; net_rules]),
                    "file.yaml: Ok;net.yaml: Ok;"))
    by (vm_compute; reflexivity).
  split; [reflexivity|]. split; [exact Hnew|].
  exact (create_new_activation (started allow_filesystem) tt [file_rules; net_rules]
           (built_from allow_filesystem [file_rules; net_rules])
           "file.yaml: Ok;net.yaml: Ok;" eq_refl Hnew).
Defined.

(** C9 as stated fails: [event_sources] is a public member, and a
    [config] whose set the caller has cleared holds no source at all. *)
Lemma config_cleared_has_no_source :
  ¬ (event_sources cleared ≠ ∅ ∧
     "syscall" ∈ event_sources cleared ∧
     "k8s_audit" ∈ event_sources cleared ∧
     ∀ source, contains_event_source cleared source = true
               ↔ source ∈ event_sources cleared).
Proof. intros [Hnonempty _]. by apply Hnonempty. Qed.

Example demo_cleared_answers_false :
  contains_event_source cleared "syscall" = false
  ∧ contains_event_source cleared "k8s_audit" = false
  ∧ (init fresh cleared (Some tt)).1.2 = true.
Proof. vm_compute. by split_and!. Qed.

Example demo_constructed_sources :
  contains_event_source (add_event_source "my_plugin" demo_config) "syscall" = true
  ∧ contains_event_source (add_event_source "my_plugin" demo_config) "my_plugin" = true
  ∧ contains_event_source (add_event_source "my_plugin" demo_config) "sysCall" = false.
Proof. vm_compute. by split_and!. Qed.

(** ** The further properties at concrete inputs *)

Example demo_deny_lists :
  map (λ r, (rule_name r, rule_enabled r))
      (m_rules (built_from deny_network [file_rules; net_rules]))
    = [("Write below etc", true); ("Read sensitive file", false);
       ("Outbound connection", false); ("Untagged rule", false)].
Proof. vm_compute. reflexivity. Qed.

Example demo_reload :
  (run (started demo_config) reload_calls).2
    = [built true "Ok;";
       accessed (Returns (Some (built_from demo_config [file_rules])));
       built false "file.yaml: Ok;bad.yaml: Invalid;net.yaml: Ok;";
       built false "file.yaml: Ok;bad.yaml: Invalid;net.yaml: Ok;";
       built true "Ok;";
       accessed (Returns (Some (built_from demo_config [net_rules])))].
Proof. vm_compute. reflexivity. Qed.

Lemma new_engine_sources_demo :
  m_inspector (started json_with_plugin) = Some tt
  ∧ create_new (started json_with_plugin) [] = (Some (built_from json_with_plugin []), "")
  ∧ ("my_plugin" ∉ event_sources (m_config (started json_with_plugin)) →
       m_sources (built_from json_with_plugin []) !! "my_plugin" = None)
  ∧ ("my_plugin" ∈ event_sources (m_config (started json_with_plugin)) →
       ∃ formatter_factory,
         m_sources (built_from json_with_plugin []) !! "my_plugin"
           = Some (filter_factory_of tt (m_plugin_filter_checks (started json_with_plugin))
                                     "my_plugin",
                   formatter_factory) ∧
         formatter_of formatter_factory
           = formatter_kind_of tt (m_plugin_filter_checks (started json_with_plugin))
                               "my_plugin" ∧
         (json_output (m_config (started json_with_plugin)) = true →
            formatter_output formatter_factory = OF_JSON)).
Proof.
  assert (Hnew : create_new (started json_with_plugin) []
                 = (Some (built_from json_with_plugin []), ""))
    by (vm_compute; reflexivity).
  split; [reflexivity|]. split; [exact Hnew|].
  exact (new_engine_sources (started json_with_plugin) tt
           (built_from json_with_plugin []) "" "my_plugin" eq_refl Hnew).
Defined.

Lemma replace_then_engine_demo :
  replace (started demo_config) [file_rules]
    = ((replace (started demo_config) [file_rules]).1.1, true, "Ok;")
  ∧ ∃ e s'',
      create_new (started demo_config) [file_rules] = (Some e, "Ok;") ∧
      m_pending_falco_engine (replace (started demo_config) [file_rules]).1.1
        = m_pending_falco_engine (started demo_config) ++ [Some e] ∧
      m_engine (replace (started demo_config) [file_rules]).1.1
        = m_engine (started demo_config) ∧
      engine (replace (started demo_config) [file_rules]).1.1 = (s'', Returns (Some e)) ∧
      m_engine s'' = Some e ∧
      m_pending_falco_engine s'' = [].
Proof.
  assert (Hreplace : replace (started demo_config) [file_rules]
                     = ((replace (started demo_config) [file_rules]).1.1, true, "Ok;"))
    by (vm_compute; reflexivity).
  split; [exact Hreplace|].
  exact (replace_then_engine (started demo_config) [file_rules] _ "Ok;" Hreplace).
Defined.

Lemma build_outcome_kept_demo :
  Forall (λ c, is_init c = false) reload_calls
  ∧ m_config (run (started demo_config) reload_calls).1 = m_config (started demo_config)
  ∧ m_inspector (run (started demo_config) reload_calls).1
      = m_inspector (started demo_config)
  ∧ create_new (run (started demo_config) reload_calls).1 three_files
      = create_new (started demo_config) three_files
  ∧ (validate (run (started demo_config) reload_calls).1 three_files).1.2
      = (validate (started demo_config) three_files).1.2.
Proof.
  assert (Hcalls : Forall (λ c, is_init c = false) reload_calls)
    by (repeat constructor).
  split; [exact Hcalls|].
  exact (build_outcome_kept reload_calls (started demo_config) three_files Hcalls).
Defined.

Lemma create_new_deny_lists_demo :
  m_inspector (started deny_network) = Some tt
  ∧ create_new (started deny_network) [file_rules; net_rules]
      = (Some (built_from deny_network [file_rules; net_rules]),
         "file.yaml: Ok;net.yaml: Ok;")
  ∧ enabled_rule_tags (m_config (started deny_network)) = ∅
  ∧ map rule_enabled (m_rules (built_from deny_network [file_rules; net_rules]))
      = map (λ r, rule_enabled r
                  && negb (carries_any
                             (disabled_rule_tags (m_config (started deny_network))) r)
                  && negb (existsb (λ substring, contains substring (rule_name r))
                             (disabled_rule_substrings (m_config (started deny_network)))))
            (m_rules (build_loaded (started deny_network) tt [file_rules; net_rules])).
Proof.
  assert (Hnew : create_new (started deny_network) [file_rules; net_rules]
                 = (Some (built_from deny_network [file_rules; net_rules]),
                    "file.yaml: Ok;net.yaml: Ok;"))
    by (vm_compute; reflexivity).
  assert (Hempty : enabled_rule_tags (m_config (started deny_network)) = ∅)
    by (vm_compute; reflexivity).
  split; [reflexivity|]. split; [exact Hnew|]. split; [exact Hempty|].
  exact (create_new_deny_lists (started deny_network) tt [file_rules; net_rules]
           (built_from deny_network [file_rules; net_rules])
           "file.yaml: Ok;net.yaml: Ok;" eq_refl Hnew Hempty).
Defined.
